(** * species_finder.py: a shallow embedding and its properties

    The script lists the files of the working directory whose name matches
    [*final_results.csv], scans each of them with [csv.DictReader] for the
    rows of one species, collects a list of [{filename, reads}] dictionaries
    and writes that list with [csv.DictWriter].

    Modelling choices.
    - Python [str] is [string]; Python [None] is [None] of an option type.
    - A file on disk is given by the sequence of rows [csv.reader] yields for
      it (a list of lists of strings); tokenising the text of the file is the
      work of the [csv] module and is not modelled.
    - Exceptions are values of [exn]; a function that can raise returns a
      [result].
    - What depends on the platform ([os.path.normcase], [os.linesep]) is a
      field of [platform]. *)

From Stdlib Require Import Ascii String.
From stdpp Require Import gmap strings list pretty.

(** ** Python strings *)

Module Str.

Definition comma : ascii := ","%char.
Definition dquote : ascii := "034"%char.
Definition CR : ascii := "013"%char.
Definition LF : ascii := "010"%char.
Definition dot : ascii := "."%char.

(** [s.startswith(p)] *)
Fixpoint startswith (p s : string) : bool :=
  match p, s with
  | EmptyString, _ => true
  | String a p', String b s' => if Ascii.eqb a b then startswith p' s' else false
  | String _ _, EmptyString => false
  end.

(** [p in s]: some position of [s] starts an occurrence of [p]. *)
Fixpoint occurs (p s : string) : bool :=
  startswith p s ||
  match s with
  | EmptyString => false
  | String _ s' => occurs p s'
  end.

(** No occurrence of [p] in [s] is followed by anything: [p] occurs at
    the end of [s] or nowhere. *)
Fixpoint only_at_end (p s : string) : bool :=
  (negb (startswith p s) || String.eqb s p) &&
  match s with
  | EmptyString => true
  | String _ s' => only_at_end p s'
  end.

(** [s[n:]] *)
Fixpoint drop (n : nat) (s : string) : string :=
  match n, s with
  | S n', String _ s' => drop n' s'
  | _, _ => s
  end.

(** [s[:n]] *)
Fixpoint take (n : nat) (s : string) : string :=
  match n, s with
  | S n', String a s' => String a (take n' s')
  | _, _ => EmptyString
  end.

(** [s.endswith(p)]: the last [len(p)] characters of [s] are [p]. *)
Definition endswith (p s : string) : bool :=
  (String.length p <=? String.length s)%nat &&
  String.eqb (drop (String.length s - String.length p) s) p.

(** [s.split(sep)] for a non-empty separator (Python raises [ValueError]
    on the empty one; the only separator of the script is a literal).
    The scan goes left to right; [cur] is the piece read since the last
    separator, and [skip] counts the characters of a separator that was
    just recognised and is still to be passed over. *)
Fixpoint split_go (sep : string) (skip : nat) (cur s : string) : list string :=
  match s with
  | EmptyString => [cur]
  | String a s' =>
      match skip with
      | S k => split_go sep k cur s'
      | O =>
          if startswith sep s
          then cur :: split_go sep (String.length sep - 1) EmptyString s'
          else split_go sep 0 (cur +:+ String a EmptyString) s'
      end
  end.

Definition split (s sep : string) : list string :=
  split_go sep 0 EmptyString s.

(** The characters of [s] in front of the first occurrence of [sep], all
    of [s] when there is none. *)
Fixpoint before_first (sep s : string) : string :=
  match s with
  | EmptyString => EmptyString
  | String a s' =>
      if startswith sep s then EmptyString else String a (before_first sep s')
  end.

End Str.

(** ** Display names *)

(** An open file object: the name it was opened under and the rows
    [csv.reader] reads from it. *)
Record file := File { name : string; rows : list (list string) }.

Definition results_suffix : string := "_final_results.csv".

(** [shorten_name]: [f.name.split("_final_results.csv")[0]].  [split] never
    returns an empty list, so the index is always in range. *)
Definition shorten_name (f : file) : string :=
  let filename := name f in
  let split_filename := Str.split filename results_suffix in
  let short_filename := default EmptyString (split_filename !! 0%nat) in
  short_filename.

(** The spec's words for the display name: the file name with the suffix
    removed ([str.removesuffix]: a name that does not end with the suffix is
    left as it is). *)
Definition removesuffix (suffix s : string) : string :=
  if Str.endswith suffix s
  then Str.take (String.length s - String.length suffix) s
  else s.

(** ** Exceptions *)

Inductive exn :=
| IOError (path : string)   (* [open] failed *)
| KeyError (key : string).  (* a dictionary has no such key *)

Inductive result (A : Type) :=
| Ok (a : A)
| Raise (e : exn).
Arguments Ok {A} a.
Arguments Raise {A} e.

Global Instance result_ret : MRet result := @Ok.
Global Instance result_bind : MBind result := λ A B k m,
  match m with
  | Ok a => k a
  | Raise e => Raise e
  end.

(** A [for] loop whose body may raise: the loop stops at the first
    exception. *)
Fixpoint foldM {A B : Type} (body : B → A → result B) (b : B) (l : list A)
  : result B :=
  match l with
  | [] => Ok b
  | a :: l' => b' ← body b a; foldM body b' l'
  end.

(** ** The platform *)

Record platform := Platform {
  normcase : string → string;   (* [os.path.normcase] *)
  linesep : string              (* [os.linesep] *)
}.

Definition posix : platform :=
  {| normcase := λ s, s; linesep := String Str.LF EmptyString |}.

(** ** File discovery: [glob.glob("*final_results.csv")] *)

Module Glob.

(** The regular expression [fnmatch.translate] builds, as a list of
    tokens: [.*], [.] and an escaped character. *)
Inductive tok := Star | AnyChar | Lit (c : ascii).

(** [fnmatch.translate] on the patterns made of literal characters, [*]
    and [?].  Consecutive [*] are compressed into one.  A pattern with a
    bracket expression is outside the modelled fragment ([None]). *)
Fixpoint translate_go (after_star : bool) (pat : string)
  : option (list tok) :=
  match pat with
  | EmptyString => Some []
  | String c pat' =>
      if Ascii.eqb c "*" then
        if after_star then translate_go true pat'
        else cons Star <$> translate_go true pat'
      else if Ascii.eqb c "?" then cons AnyChar <$> translate_go false pat'
      else if Ascii.eqb c "[" then None
      else cons (Lit c) <$> translate_go false pat'
  end.

Definition translate (pat : string) : option (list tok) :=
  translate_go false pat.

(** [re.match] of the translated pattern, which is anchored at both ends
    and lets [.] match every character. *)
Fixpoint matches (p : list tok) : string → bool :=
  match p with
  | [] => λ s, match s with EmptyString => true | _ => false end
  | Star :: p' =>
      fix star (s : string) : bool :=
        matches p' s ||
        match s with
        | EmptyString => false
        | String _ s' => star s'
        end
  | AnyChar :: p' =>
      λ s, match s with
           | EmptyString => false
           | String _ s' => matches p' s'
           end
  | Lit c :: p' =>
      λ s, match s with
           | EmptyString => false
           | String a s' => Ascii.eqb c a && matches p' s'
           end
  end.

(** The tokens of a pattern without special characters. *)
Fixpoint lits (s : string) : list tok :=
  match s with
  | EmptyString => []
  | String c s' => Lit c :: lits s'
  end.

(** [fnmatch.filter(names, pat)] *)
Definition fnmatch_filter (pl : platform) (names : list string)
  (pat : string) : list string :=
  let pat := normcase pl pat in
  match translate pat with
  | Some re => filter (λ name, matches re (normcase pl name)) names
  | None => []
  end.

(** [_ishidden(path)]: [path[0] == '.'].  A directory entry is never the
    empty string. *)
Definition ishidden (path : string) : bool :=
  match path with
  | String c _ => Ascii.eqb c Str.dot
  | EmptyString => false
  end.

(** [_glob1]: [names] is what [os.scandir] lists for the directory, in
    its order. *)
Definition glob1 (pl : platform) (names : list string) (pattern : string)
  : list string :=
  let names :=
    if negb (ishidden pattern)
    then filter (λ x, negb (ishidden x)) names
    else names in
  fnmatch_filter pl names pattern.

(** [glob.glob(pathname)] for a [pathname] without a directory part:
    [_iglob] hands it to [_glob1] on the current directory. *)
Definition glob (pl : platform) (names : list string) (pathname : string)
  : list string :=
  glob1 pl names pathname.

End Glob.

(** ** Reading: [csv.DictReader] *)

(** A row as a dictionary.  The keys taken from the header are strings and
    map to a field or to [None] ([restval], for a row shorter than the
    header); the key [None] ([restkey]) maps to the list of the fields a
    row has beyond the header. *)
Record row_dict := RowDict {
  named : gmap string (option string);
  restkey : option (list string)
}.

Module DictReader.

(** [dict(zip(fieldnames, row))]: a later pair overwrites an earlier one
    with the same key. *)
Definition dict_zip (fieldnames row : list string)
  : gmap string (option string) :=
  foldl (λ d kv, <[kv.1 := Some kv.2]> d) ∅ (zip fieldnames row).

(** [for key in fieldnames[lr:]: d[key] = restval] *)
Definition fill_restval (keys : list string)
  (d : gmap string (option string)) : gmap string (option string) :=
  foldl (λ d key, <[key := None]> d) d keys.

(** The body of [__next__] after a non-blank row was read. *)
Definition next_dict (fieldnames row : list string) : row_dict :=
  let d := dict_zip fieldnames row in
  let lf := length fieldnames in
  let lr := length row in
  if (lf <? lr)%nat then RowDict d (Some (drop lf row))
  else if (lr <? lf)%nat then RowDict (fill_restval (drop lr fieldnames) d) None
  else RowDict d None.

(** All the dictionaries the reader yields: the first row is the header,
    blank rows after it are skipped. *)
Definition read (rows : list (list string)) : list row_dict :=
  match rows with
  | [] => []
  | fieldnames :: data =>
      next_dict fieldnames <$> filter (λ row, row ≠ []) data
  end.

End DictReader.

(** [line[key]] *)
Definition getitem (line : row_dict) (key : string) : result (option string) :=
  match named line !! key with
  | Some v => Ok v
  | None => Raise (KeyError key)
  end.

(** ** Aggregation: [create_species_dict] *)

(** The values stored under ["reads"]: the integer [0], a field of the
    [Reads] column, or [None]. *)
Inductive pyval :=
| PyInt (n : Z)
| PyStr (s : string)
| PyNone.

Definition of_field (v : option string) : pyval :=
  match v with
  | Some s => PyStr s
  | None => PyNone
  end.

(** The dictionary [search_results], which always has the two keys
    ["filename"] and ["reads"]. *)
Record search_results := SearchResults {
  filename : string;
  reads : pyval
}.

(** The file system seen by [open]: the rows of every file that can be
    opened for reading. *)
Definition open (fs : gmap string (list (list string))) (path : string)
  : result file :=
  match fs !! path with
  | Some rows => Ok (File path rows)
  | None => Raise (IOError path)
  end.

(** The body of [for line in reader], on the pair of [species_counter]
    and [results_list]. *)
Definition scan_line (search_species short_filename : string)
  (st : nat * list search_results) (line : row_dict)
  : result (nat * list search_results) :=
  let '(species_counter, results_list) := st in
  species ← getitem line "Species";
  if bool_decide (species = Some search_species) then
    reads ← getitem line "Reads";
    Ok (S species_counter,
        results_list ++ [SearchResults short_filename (of_field reads)])
  else Ok (species_counter, results_list).

(** The body of [for csv_file in csv_list], on [results_list]. *)
Definition scan_file (fs : gmap string (list (list string)))
  (search_species : string) (results_list : list search_results)
  (csv_file : string) : result (list search_results) :=
  f ← open fs csv_file;
  let reader := DictReader.read (rows f) in
  let short_filename := shorten_name f in
  st ← foldM (scan_line search_species short_filename) (0%nat, results_list) reader;
  let '(species_counter, results_list) := st in
  if (species_counter =? 0)%nat
  then Ok (results_list ++ [SearchResults short_filename (PyInt 0)])
  else Ok results_list.

Definition create_species_dict (fs : gmap string (list (list string)))
  (csv_list : list string) (search_species : string)
  : result (list search_results) :=
  foldM (scan_file fs search_species) [] csv_list.

(** ** Export: [results_to_csv] *)

Module Writer.

(** What [csv.writer] writes for one value. *)
Definition field_text (v : pyval) : string :=
  match v with
  | PyStr s => s
  | PyNone => EmptyString
  | PyInt n => pretty n
  end.

(** A character that makes the excel dialect quote a field: the
    delimiter, the quote character, a character of the line terminator. *)
Definition special (c : ascii) : bool :=
  Ascii.eqb c Str.comma || Ascii.eqb c Str.dquote ||
  Ascii.eqb c Str.CR || Ascii.eqb c Str.LF.

Fixpoint needs_quote (s : string) : bool :=
  match s with
  | EmptyString => false
  | String c s' => special c || needs_quote s'
  end.

(** The quote character is doubled inside a quoted field. *)
Fixpoint double_quotes (s : string) : string :=
  match s with
  | EmptyString => EmptyString
  | String c s' =>
      if Ascii.eqb c Str.dquote
      then String c (String c (double_quotes s'))
      else String c (double_quotes s')
  end.

Definition quoted (s : string) : string :=
  String Str.dquote (double_quotes s +:+ String Str.dquote EmptyString).

Definition field (s : string) : string :=
  if needs_quote s then quoted s else s.

Fixpoint join (l : list string) : string :=
  match l with
  | [] => EmptyString
  | [s] => s
  | s :: l' => s +:+ String Str.comma (join l')
  end.

Definition lineterminator : string :=
  String Str.CR (String Str.LF EmptyString).

(** [writer.writerow]: a record made of one empty field is written as
    an empty quoted field. *)
Definition writerow (row : list pyval) : string :=
  let texts := field_text <$> row in
  match texts with
  | [EmptyString] => quoted EmptyString +:+ lineterminator
  | _ => join (field <$> texts) +:+ lineterminator
  end.

(** [DictWriter._dict_to_list] for [fieldnames = ["filename", "reads"]] *)
Definition dict_to_list (rowdict : search_results) : list pyval :=
  [PyStr (filename rowdict); reads rowdict].

Definition writeheader : string :=
  writerow [PyStr "filename"; PyStr "reads"].

Definition writerows (rowdicts : list search_results) : string :=
  String.concat EmptyString (writerow <$> (dict_to_list <$> rowdicts)).

(** Writing to a file opened in text mode with the default [newline]:
    every line feed becomes [os.linesep]. *)
Fixpoint text_write (pl : platform) (s : string) : string :=
  match s with
  | EmptyString => EmptyString
  | String c s' =>
      if Ascii.eqb c Str.LF then linesep pl +:+ text_write pl s'
      else String c (text_write pl s')
  end.

End Writer.

(** [results_to_csv]: the name of the file it opens for writing and the
    content the file has when it is closed.  The [open] for writing is
    taken to succeed: a name that cannot be opened for writing (a query
    with a path separator, a directory of that name, a read-only
    directory) makes the source raise [OSError] before anything is
    written, and is outside this description. *)
Definition results_to_csv (pl : platform) (search_species : string)
  (results_list : list search_results) : string * string :=
  let csv_filename := search_species in
  (csv_filename +:+ ".csv",
   Writer.text_write pl (Writer.writeheader +:+ Writer.writerows results_list)).

(** ** The pipeline: [main] up to the export *)

(** [main] is followed from the discovery to the export; the chart drawn
    after it is left out.  As in [results_to_csv], the export file is taken
    to be writable, so [main] says what is written, and raises only what
    the aggregation raises. *)

(** The working directory: the names [os.scandir] lists, in its order
    (files and subdirectories alike), and the rows of the entries that can
    be opened for reading. *)
Record directory := Directory {
  listing : list string;
  files : gmap string (list (list string))
}.

Definition main (pl : platform) (working_dir : directory)
  (search_species : string) : result (string * string) :=
  let csv_list := Glob.glob pl (listing working_dir) "*final_results.csv" in
  results_list ← create_species_dict (files working_dir) csv_list search_species;
  Ok (results_to_csv pl search_species results_list).

(** ** Reference descriptions used in the statements *)

(** The display name of a file name: [shorten_name] reads nothing of the
    file but its name. *)
Definition display_name (csv_file : string) : string :=
  shorten_name (File csv_file []).

(** The [Species] field of a row is the query. *)
Definition species_is (search_species : string) (d : row_dict) : Prop :=
  named d !! "Species" = Some (Some search_species).

Global Instance species_is_dec search_species d :
  Decision (species_is search_species d).
Proof. unfold species_is. apply _. Defined.

(** The rows of a file, as dictionaries, whose [Species] field is the
    query. *)
Definition matching_rows (fs : gmap string (list (list string)))
  (search_species csv_file : string) : list row_dict :=
  match fs !! csv_file with
  | Some rows => filter (species_is search_species) (DictReader.read rows)
  | None => []
  end.

(** The [Reads] field of a row, [None] for a row that has none. *)
Definition reads_field (d : row_dict) : pyval :=
  match named d !! "Reads" with
  | Some v => of_field v
  | None => PyNone
  end.

(** The records a file contributes: one per matching row, in row order,
    carrying the [Reads] field of that row; a single record with the
    integer [0] when no row matches. *)
Definition file_records (fs : gmap string (list (list string)))
  (search_species csv_file : string) : list search_results :=
  match matching_rows fs search_species csv_file with
  | [] => [SearchResults (display_name csv_file) (PyInt 0)]
  | ms => (λ d, SearchResults (display_name csv_file) (reads_field d)) <$> ms
  end.

(** A source file of the data model: it can be opened and its header has
    the columns [Species] and [Reads]. *)
Definition well_formed (fs : gmap string (list (list string)))
  (csv_file : string) : Prop :=
  ∃ header data,
    fs !! csv_file = Some (header :: data) ∧
    "Species" ∈ header ∧ "Reads" ∈ header.

(** The scenario of the specification: two files, the query [SpeciesX]. *)
Definition scenario : directory :=
  {| listing := ["A_final_results.csv"; "B_final_results.csv"];
     files :=
       <["A_final_results.csv" :=
           [["Species"; "Reads"]; ["SpeciesX"; "10"]; ["SpeciesY"; "3"];
            ["SpeciesX"; "7"]]]>
       (<["B_final_results.csv" :=
           [["Species"; "Reads"]; ["SpeciesY"; "5"]]]> ∅) |}.

(** The same directory once a run for [SpeciesX] has written its table and
    its chart next to the source files. *)
Definition scenario_rerun : directory :=
  {| listing := listing scenario ++ ["SpeciesX.csv"; "SpeciesX.png"];
     files :=
       <["SpeciesX.csv" :=
           [["filename"; "reads"]; ["A"; "10"]; ["A"; "7"]; ["B"; "0"]]]>
       (files scenario) |}.

(** ** Further descriptions *)

(** [sep.join(pieces)] *)
Fixpoint join_with (sep : string) (pieces : list string) : string :=
  match pieces with
  | [] => EmptyString
  | [piece] => piece
  | piece :: pieces' => piece +:+ sep +:+ join_with sep pieces'
  end.

(** Column [i] is the last column of the header named [key]. *)
Definition last_column (header : list string) (key : string) (i : nat)
  : Prop :=
  header !! i = Some key ∧ ∀ j, i < j → header !! j ≠ Some key.

(** One line of the exported file made of the given field texts: the
    fields, quoted where needed and separated by commas, as the text layer
    writes them, then a carriage return and [os.linesep]. *)
Definition export_line (pl : platform) (texts : list string) : string :=
  Writer.text_write pl (Writer.join (Writer.field <$> texts))
  +:+ String Str.CR (linesep pl).

(** ** The interactive program: [choose_species] and [main] *)

(** What the program writes to the terminal: the text of a [print] of a
    string, the lists it prints, and the prompt of an [input]. *)
Inductive event :=
| Print (text : string)
| PrintNames (names : list string)
| PrintResults (results : list search_results)
| Prompt (text : string).

(** The terminal: the lines still to be read, and what was written. *)
Record console := Console { stdin : list string; stdout : list event }.

Inductive fault :=
| EOFError                (* [input] at the end of the input *)
| OSError (path : string) (* [os.chdir] failed *)
| Uncaught (e : exn).     (* an exception of the aggregation *)

Inductive outcome (A : Type) :=
| Done (a : A)
| Fault (f : fault).
Arguments Done {A} a.
Arguments Fault {A} f.

(** A computation that uses the terminal and may stop with a fault. *)
Definition io (A : Type) : Type := console → outcome A * console.

Global Instance io_ret : MRet io := λ A a c, (Done a, c).
Global Instance io_bind : MBind io := λ A B k m c,
  match m c with
  | (Done a, c') => k a c'
  | (Fault f, c') => (Fault f, c')
  end.

Definition print (ev : event) : io unit :=
  λ c, (Done tt, Console (stdin c) (stdout c ++ [ev])).

(** [input(prompt)]: the prompt is written, then a line is read. *)
Definition input (prompt : string) : io string :=
  λ c,
    let c' := Console (stdin c) (stdout c ++ [Prompt prompt]) in
    match stdin c with
    | [] => (Fault EOFError, c')
    | line :: rest => (Done line, Console rest (stdout c'))
    end.

(** [os.chdir(path)], [dirs] giving the directories that can be entered. *)
Definition chdir (dirs : gmap string directory) (path : string)
  : io directory :=
  λ c,
    match dirs !! path with
    | Some d => (Done d, c)
    | None => (Fault (OSError path), c)
    end.

Definition choose_species : io string :=
  print (Print "");;
  print (Print "Enter a bacteria species. Please be mindful of syntax.");;
  print (Print "(Best practise to copy + paste the name directly from the csv)");;
  search_species ← input "Enter species here: ";
  print (Print "");;
  mret search_species.

(** [create_species_dict] with the [print(results_list)] that ends it. *)
Definition create_species_dict_print (fs : gmap string (list (list string)))
  (csv_list : list string) (search_species : string)
  : io (list search_results) :=
  λ c,
    match create_species_dict fs csv_list search_species with
    | Ok results_list =>
        (Done results_list,
         Console (stdin c) (stdout c ++ [PrintResults results_list]))
    | Raise e => (Fault (Uncaught e), c)
    end.

(** [main] with its prompts, up to the export: the result is the file
    [results_to_csv] writes. *)
Definition main_console (pl : platform) (dirs : gmap string directory)
  : io (string * string) :=
  working_dir ← input "Please choose the working directory: ";
  d ← chdir dirs working_dir;
  let csv_list := Glob.glob pl (listing d) "*final_results.csv" in
  print (PrintNames csv_list);;
  search_species ← choose_species;
  results_list ← create_species_dict_print (files d) csv_list search_species;
  mret (results_to_csv pl search_species results_list).

(** * Properties *)

(** Membership in a list that is written out. *)
Ltac in_list := repeat first [by left | right].
Ltac not_in_list :=
  let H := fresh "H" in
  intros H;
  repeat (apply elem_of_cons in H as [H|H]; [discriminate H|]);
  by apply elem_of_nil in H.


(** ** Strings *)

Module StrFacts.
Import Str.

Lemma app_cons a s t : String a s +:+ t = String a (s +:+ t).
Proof. reflexivity. Qed.

Lemma app_nil_l s : "" +:+ s = s.
Proof. reflexivity. Qed.

Lemma app_nil_r s : s +:+ "" = s.
Proof. induction s as [|a s IH]; [done|]. by rewrite app_cons, IH. Qed.

Lemma app_assoc s t u : (s +:+ t) +:+ u = s +:+ (t +:+ u).
Proof. induction s as [|a s IH]; [done|]. by rewrite !app_cons, IH. Qed.

Lemma length_app s t :
  String.length (s +:+ t) = (String.length s + String.length t)%nat.
Proof.
  induction s as [|a s IH]; [done|]. rewrite app_cons. simpl. by rewrite IH.
Qed.

Lemma length_zero s : String.length s = 0%nat → s = "".
Proof. by destruct s. Qed.

Lemma startswith_spec p s : startswith p s = true ↔ ∃ r, s = p +:+ r.
Proof.
  revert s. induction p as [|a p IH]; intros s; simpl.
  - split; [eauto|done].
  - destruct s as [|b s].
    + split; [done|]. intros [r Hr]. by rewrite app_cons in Hr.
    + destruct (Ascii.eqb_spec a b) as [->|Hne].
      * rewrite IH. split; intros [r Hr]; exists r.
        -- by rewrite app_cons, Hr.
        -- rewrite app_cons in Hr. by simplify_eq.
      * split; [done|]. intros [r Hr]. rewrite app_cons in Hr. by simplify_eq.
Qed.

Lemma startswith_app p r : startswith p (p +:+ r) = true.
Proof. apply startswith_spec. eauto. Qed.

Lemma occurs_spec p s : occurs p s = true ↔ ∃ a b, s = a +:+ p +:+ b.
Proof.
  induction s as [|c s IH]; simpl.
  - rewrite orb_false_r, startswith_spec. split.
    + intros [r Hr]. by exists "", r.
    + intros ([|c a] & b & H); [by exists b|]. by rewrite app_cons in H.
  - rewrite orb_true_iff, startswith_spec, IH. split.
    + intros [[r Hr]|(a & b & H)].
      * by exists "", r.
      * exists (String c a), b. by rewrite app_cons, H.
    + intros ([|c' a] & b & H).
      * left. by exists b.
      * right. exists a, b. rewrite app_cons in H. by simplify_eq.
Qed.

Lemma before_first_absent sep s : occurs sep s = false → before_first sep s = s.
Proof.
  induction s as [|c s IH]; [done|]. simpl.
  intros [H1 H2]%orb_false_iff. rewrite H1. by rewrite IH.
Qed.

(** [before_first] stops at the first position where [sep] starts. *)
Lemma before_first_app sep p r :
  (∀ a b, p +:+ sep +:+ r = a +:+ sep +:+ b →
          (String.length p ≤ String.length a)%nat) →
  before_first sep (p +:+ sep +:+ r) = p.
Proof.
  induction p as [|c p IH]; intros Hmin.
  - rewrite app_nil_l. destruct sep as [|x sep]; [by destruct r|].
    rewrite app_cons. simpl. rewrite Ascii.eqb_refl.
    by rewrite startswith_app.
  - rewrite app_cons. simpl.
    destruct (startswith sep (String c (p +:+ sep +:+ r))) eqn:Hs.
    + apply startswith_spec in Hs as [b Hb].
      specialize (Hmin "" b). rewrite app_cons, app_nil_l in Hmin.
      specialize (Hmin Hb). simpl in Hmin. lia.
    + f_equal. apply IH. intros a b Hab.
      specialize (Hmin (String c a) b). rewrite !app_cons in Hmin.
      rewrite Hab in Hmin. specialize (Hmin eq_refl). simpl in Hmin. lia.
Qed.

(** The first piece [split] returns is what stands in front of the first
    separator. *)
Lemma split_go_head sep cur s :
  split_go sep 0 cur s !! 0%nat = Some (cur +:+ before_first sep s).
Proof.
  revert cur. induction s as [|c s IH]; intros cur; simpl.
  - by rewrite app_nil_r.
  - destruct (startswith sep (String c s)).
    + by rewrite app_nil_r.
    + rewrite IH. by rewrite app_assoc.
Qed.

Lemma only_at_end_spec p s :
  only_at_end p s = true → ∀ a b, s = a +:+ p +:+ b → b = "".
Proof.
  induction s as [|c s IH]; cbn [only_at_end].
  - intros _ a b H. apply (f_equal String.length) in H.
    rewrite !length_app in H. simpl in H. apply length_zero. lia.
  - intros [Hhere Hlater]%andb_true_iff [|c' a] b H.
    + rewrite app_nil_l in H.
      apply orb_true_iff in Hhere as [Hno|Heq].
      * rewrite H, startswith_app in Hno. done.
      * apply String.eqb_eq in Heq. rewrite Heq in H.
        apply (f_equal String.length) in H. rewrite length_app in H.
        apply length_zero. lia.
    + rewrite app_cons in H. simplify_eq. by apply (IH Hlater a b).
Qed.

Lemma drop_app s t : drop (String.length s) (s +:+ t) = t.
Proof. induction s as [|c s IH]; [by destruct t|]. by rewrite app_cons. Qed.

Lemma take_app s t : take (String.length s) (s +:+ t) = s.
Proof.
  induction s as [|c s IH]; [by destruct t|].
  rewrite app_cons. simpl. by rewrite IH.
Qed.

Lemma take_drop n s : take n s +:+ drop n s = s.
Proof.
  revert s. induction n as [|n IH]; intros [|c s]; simpl; try done.
  by rewrite app_cons, IH.
Qed.

Lemma endswith_spec p s : endswith p s = true ↔ ∃ k, s = k +:+ p.
Proof.
  unfold endswith. rewrite andb_true_iff, Nat.leb_le, String.eqb_eq. split.
  - intros [Hle Heq]. exists (take (String.length s - String.length p) s).
    rewrite <- Heq at 2. by rewrite take_drop.
  - intros [k ->]. rewrite length_app. split; [lia|].
    replace (String.length k + String.length p - String.length p)%nat
      with (String.length k) by lia.
    apply drop_app.
Qed.

End StrFacts.

Example split_pieces : Str.split "a--b--" "--" = ["a"; "b"; ""].
Proof. reflexivity. Qed.

Example split_without_separator : Str.split "ab" "--" = ["ab"].
Proof. reflexivity. Qed.

(** ** Display names *)

Section display_names.
Import Str StrFacts.

Lemma shorten_name_before_first f :
  shorten_name f = before_first results_suffix (name f).
Proof.
  unfold shorten_name, split. rewrite split_go_head. simpl.
  by rewrite app_nil_l.
Qed.

Lemma removesuffix_app suffix p : removesuffix suffix (p +:+ suffix) = p.
Proof.
  unfold removesuffix.
  assert (endswith suffix (p +:+ suffix) = true) as ->
    by (apply endswith_spec; eauto).
  rewrite length_app.
  replace (String.length p + String.length suffix - String.length suffix)%nat
    with (String.length p) by lia.
  apply take_app.
Qed.

Lemma removesuffix_absent suffix s :
  (∀ k, s ≠ k +:+ suffix) → removesuffix suffix s = s.
Proof.
  intros Hno. unfold removesuffix.
  destruct (endswith suffix s) eqn:He; [|done].
  apply endswith_spec in He as [k ->]. by destruct (Hno k).
Qed.

End display_names.

(** C9. A file name in which [_final_results.csv] does not occur is its own
    display name, extension included. *)
Theorem shorten_name_without_suffix (f : file) :
  (∀ a b, name f ≠ a +:+ results_suffix +:+ b) →
  shorten_name f = name f.
Proof.
  intros Hno. rewrite shorten_name_before_first.
  apply StrFacts.before_first_absent.
  destruct (Str.occurs results_suffix (name f)) eqn:Ho; [|done].
  apply StrFacts.occurs_spec in Ho as (a & b & Hab). by destruct (Hno a b).
Qed.

(** The example of C9: the name ends in [final_results.csv] without the
    underscore, discovery returns it, and it is displayed unchanged. *)
Lemma shorten_name_without_suffix_witness :
  Glob.glob posix ["Xfinal_results.csv"] "*final_results.csv"
    = ["Xfinal_results.csv"] ∧
  shorten_name (File "Xfinal_results.csv" []) = "Xfinal_results.csv".
Proof.
  split; [reflexivity|].
  apply (shorten_name_without_suffix (File "Xfinal_results.csv" [])).
  intros a b Hab.
  assert (Str.occurs results_suffix "Xfinal_results.csv" = true) as Ho
    by (apply StrFacts.occurs_spec; eauto).
  vm_compute in Ho. discriminate Ho.
Defined.

(** C6, as the code has it: when [_final_results.csv] occurs in the file
    name nowhere but at its end (or not at all), the display name is the
    file name with that suffix removed. *)
Theorem shorten_name_removes_suffix (f : file) :
  (∀ a b, name f = a +:+ results_suffix +:+ b → b = "") →
  shorten_name f = removesuffix results_suffix (name f).
Proof.
  intros Hend. rewrite shorten_name_before_first.
  destruct (Str.occurs results_suffix (name f)) eqn:Ho.
  - apply StrFacts.occurs_spec in Ho as (p & r & Hpr).
    pose proof (Hend p r Hpr) as ->.
    rewrite Hpr in Hend |- *. rewrite StrFacts.app_nil_r, removesuffix_app.
    rewrite <- (StrFacts.app_nil_r results_suffix) at 2.
    apply StrFacts.before_first_app. rewrite StrFacts.app_nil_r.
    intros a b Hab. pose proof (Hend a b Hab) as ->.
    apply (f_equal String.length) in Hab.
    rewrite !StrFacts.length_app in Hab. simpl in Hab. lia.
  - rewrite StrFacts.before_first_absent by done. symmetry.
    apply removesuffix_absent. intros k Hk.
    assert (Str.occurs results_suffix (name f) = true) as Ho'; [|congruence].
    apply StrFacts.occurs_spec. exists k, "".
    by rewrite StrFacts.app_nil_r.
Qed.

Lemma shorten_name_removes_suffix_witness :
  shorten_name (File "cohort_mgm42_final_results.csv" []) = "cohort_mgm42".
Proof.
  change "cohort_mgm42"
    with (removesuffix results_suffix "cohort_mgm42_final_results.csv").
  apply (shorten_name_removes_suffix (File "cohort_mgm42_final_results.csv" [])).
  apply StrFacts.only_at_end_spec. vm_compute. reflexivity.
Defined.

(** C6 as the specification words it fails on a discovered name in which
    the suffix occurs twice: the code cuts at the first occurrence. *)
Lemma shorten_name_cuts_at_first_occurrence :
  Glob.glob posix ["a_final_results.csv_final_results.csv"] "*final_results.csv"
    = ["a_final_results.csv_final_results.csv"] ∧
  shorten_name (File "a_final_results.csv_final_results.csv" []) = "a" ∧
  removesuffix results_suffix "a_final_results.csv_final_results.csv"
    = "a_final_results.csv" ∧
  shorten_name (File "a_final_results.csv_final_results.csv" [])
    ≠ removesuffix results_suffix "a_final_results.csv_final_results.csv".
Proof. repeat split; try reflexivity. vm_compute. discriminate. Qed.

(** ** File discovery *)

Module GlobFacts.
Import Glob StrFacts.

Lemma matches_lits s t : matches (lits s) t = true ↔ t = s.
Proof.
  revert t. induction s as [|c s IH]; intros [|a t]; simpl; try done.
  rewrite andb_true_iff, IH, Ascii.eqb_eq.
  split; [by intros [-> ->]|]. intros H. by simplify_eq.
Qed.

Lemma matches_star p t :
  matches (Star :: p) t = true ↔ ∃ k r, t = k +:+ r ∧ matches p r = true.
Proof.
  induction t as [|a t IH].
  - simpl. rewrite orb_false_r. split.
    + intros H. by exists "", "".
    + intros ([|??] & r & Hr & Hm); [|by rewrite app_cons in Hr].
      rewrite app_nil_l in Hr. by subst r.
  - change (matches (Star :: p) (String a t))
      with (matches p (String a t) || matches (Star :: p) t).
    rewrite orb_true_iff, IH. split.
    + intros [H|(k & r & -> & Hm)].
      * by exists "", (String a t).
      * exists (String a k), r. by rewrite app_cons.
    + intros ([|a' k] & r & Hr & Hm).
      * left. rewrite app_nil_l in Hr. by subst r.
      * right. rewrite app_cons in Hr. simplify_eq. eauto.
Qed.

Lemma matches_star_lits s t :
  matches (Star :: lits s) t = true ↔ ∃ k, t = k +:+ s.
Proof.
  rewrite matches_star. split.
  - intros (k & r & -> & ->%matches_lits). eauto.
  - intros [k ->]. exists k, s. split; [done|]. by apply matches_lits.
Qed.

Lemma translate_final_results :
  translate "*final_results.csv" = Some (Star :: lits "final_results.csv").
Proof. reflexivity. Qed.

End GlobFacts.

(** C8, as the code has it: where [os.path.normcase] leaves the pattern as
    it is, discovery returns, in the order of the directory listing, the
    entries whose name does not begin with a dot and whose normalised name
    ends with [final_results.csv]; nothing else, and the empty list when no
    entry qualifies. *)
Theorem glob_final_results (pl : platform) (names : list string) :
  normcase pl "*final_results.csv" = "*final_results.csv" →
  Glob.glob pl names "*final_results.csv"
    = filter (λ n, Glob.ishidden n = false ∧
                   Str.endswith "final_results.csv" (normcase pl n) = true)
             names ∧
  (∀ n, n ∈ Glob.glob pl names "*final_results.csv" ↔
        n ∈ names ∧ Glob.ishidden n = false ∧
        ∃ k, normcase pl n = k +:+ "final_results.csv") ∧
  ((∀ n, n ∈ names →
         ¬ (Glob.ishidden n = false ∧
            ∃ k, normcase pl n = k +:+ "final_results.csv")) →
   Glob.glob pl names "*final_results.csv" = []).
Proof.
  intros Hpat.
  assert (Glob.glob pl names "*final_results.csv"
    = filter (λ n, Glob.ishidden n = false ∧
                   Str.endswith "final_results.csv" (normcase pl n) = true)
             names) as Heq.
  { unfold Glob.glob, Glob.glob1, Glob.fnmatch_filter.
    rewrite Hpat, GlobFacts.translate_final_results.
    change (negb (Glob.ishidden "*final_results.csv")) with true.
    cbv beta iota zeta.
    rewrite list_filter_filter. apply list_filter_iff. intros n.
    rewrite Is_true_true, GlobFacts.matches_star_lits, StrFacts.endswith_spec.
    rewrite Is_true_true, negb_true_iff. tauto. }
  split; [done|]. split.
  - intros n. rewrite Heq, list_elem_of_filter, StrFacts.endswith_spec. tauto.
  - intros Hnone. rewrite Heq. clear Heq.
    induction names as [|n names IH]; [done|].
    rewrite filter_cons_False.
    + apply IH. intros n' Hn'. apply Hnone. by right.
    + rewrite StrFacts.endswith_spec. apply Hnone. by left.
Qed.

Lemma glob_final_results_witness :
  Glob.glob posix
    ["notes.txt"; "B_final_results.csv"; "A_final_results.csv";
     "A_FINAL_RESULTS.CSV"] "*final_results.csv"
  = ["B_final_results.csv"; "A_final_results.csv"].
Proof.
  rewrite (proj1 (glob_final_results posix _ eq_refl)).
  vm_compute. reflexivity.
Defined.

(** C8 as the specification words it fails on a name that begins with a
    dot: it ends with the suffix and is in the directory, and discovery
    leaves it out. *)
Lemma glob_skips_hidden :
  ".mgm7_final_results.csv" = ".mgm7_" +:+ "final_results.csv" ∧
  Glob.glob posix [".mgm7_final_results.csv"] "*final_results.csv" = [].
Proof. split; reflexivity. Qed.

(** ** The error monad *)

Lemma bind_Ok_inv {A B : Type} (m : result A) (k : A → result B) (b : B) :
  m ≫= k = Ok b → ∃ a, m = Ok a ∧ k a = Ok b.
Proof. destruct m as [a|e]; [|done]. intros H. by exists a. Qed.

Lemma bind_Ok {A B : Type} (a : A) (k : A → result B) : Ok a ≫= k = k a.
Proof. reflexivity. Qed.

(** A loop over the same elements with bodies that agree on them gives the
    same outcome. *)
Lemma foldM_ext {A B : Type} (body1 body2 : B → A → result B) b l :
  (∀ a, a ∈ l → ∀ b', body1 b' a = body2 b' a) →
  foldM body1 b l = foldM body2 b l.
Proof.
  revert b. induction l as [|a l IH]; intros b Hext; [done|].
  simpl. rewrite Hext by left. destruct (body2 b a) as [b'|e]; [|done].
  apply IH. intros a' Ha'. apply Hext. by right.
Qed.

(** A loop raises as soon as one of its elements makes the body raise
    whatever the state is. *)
Lemma foldM_raises {A B : Type} (body : B → A → result B) b l a :
  a ∈ l → (∀ b', ∃ e, body b' a = Raise e) → ∃ e, foldM body b l = Raise e.
Proof.
  intros Ha Hraise. revert b.
  induction l as [|a' l IH]; intros b; [by apply not_elem_of_nil in Ha|].
  simpl. apply elem_of_cons in Ha as [<-|Ha].
  - destruct (Hraise b) as [e ->]. by exists e.
  - destruct (body b a') as [b'|e]; [by apply IH|by exists e].
Qed.

(** ** Reading rows as dictionaries *)

Module DictReaderFacts.
Import DictReader.

Lemma zip_insert_is_Some (kvs : list (string * string))
  (d : gmap string (option string)) (k : string) :
  is_Some (foldl (λ d kv, <[kv.1 := Some kv.2]> d) d kvs !! k) ↔
  k ∈ kvs.*1 ∨ is_Some (d !! k).
Proof.
  revert d. induction kvs as [|[k' v] kvs IH]; intros d; simpl.
  - rewrite elem_of_nil. tauto.
  - rewrite IH, elem_of_cons. destruct (decide (k' = k)) as [->|Hne].
    + rewrite lookup_insert_eq. split; [auto|]. intros _. right. eauto.
    + rewrite lookup_insert_ne by done. split; [tauto|].
      intros [[?|?]|?]; [congruence|tauto..].
Qed.

Lemma fill_restval_is_Some (keys : list string)
  (d : gmap string (option string)) (k : string) :
  is_Some (fill_restval keys d !! k) ↔ k ∈ keys ∨ is_Some (d !! k).
Proof.
  unfold fill_restval. revert d.
  induction keys as [|k' keys IH]; intros d; simpl.
  - rewrite elem_of_nil. tauto.
  - rewrite IH, elem_of_cons. destruct (decide (k' = k)) as [->|Hne].
    + rewrite lookup_insert_eq. split; [auto|]. intros _. right. eauto.
    + rewrite lookup_insert_ne by done. split; [tauto|].
      intros [[?|?]|?]; [congruence|tauto..].
Qed.

Lemma fst_zip_take (fieldnames row : list string) :
  (zip fieldnames row).*1 = take (length row) fieldnames.
Proof.
  revert row. induction fieldnames as [|k fieldnames IH]; intros [|v row];
    simpl; try done.
  by rewrite IH.
Qed.

Lemma dict_zip_is_Some fieldnames row k :
  is_Some (dict_zip fieldnames row !! k) ↔ k ∈ take (length row) fieldnames.
Proof.
  unfold dict_zip. rewrite zip_insert_is_Some, fst_zip_take, lookup_empty.
  split; [|auto]. intros [?|[? ?]]; done.
Qed.

(** The string keys of a row dictionary are the names of the header. *)
Lemma next_dict_is_Some fieldnames row k :
  is_Some (named (next_dict fieldnames row) !! k) ↔ k ∈ fieldnames.
Proof.
  unfold next_dict.
  destruct (Nat.ltb_spec (length fieldnames) (length row)) as [Hlt|Hge].
  { simpl. rewrite dict_zip_is_Some, take_ge by lia. done. }
  destruct (Nat.ltb_spec (length row) (length fieldnames)) as [Hlt|Heq].
  - simpl. rewrite fill_restval_is_Some, dict_zip_is_Some.
    rewrite (or_comm (k ∈ drop _ _)), <- elem_of_app, take_drop. done.
  - simpl. rewrite dict_zip_is_Some, take_ge by lia. done.
Qed.

Lemma read_is_Some fieldnames data d k :
  d ∈ read (fieldnames :: data) →
  is_Some (named d !! k) ↔ k ∈ fieldnames.
Proof.
  simpl. intros (row & -> & _)%list_elem_of_fmap. apply next_dict_is_Some.
Qed.

End DictReaderFacts.

(** A row shorter than the header has [None] for the columns it lacks; a
    column named twice keeps what was stored last. *)
Example short_row :
  getitem (DictReader.next_dict ["Species"; "Reads"] ["SpeciesX"]) "Reads"
  = Ok None.
Proof. reflexivity. Qed.

Example repeated_column :
  getitem (DictReader.next_dict ["Species"; "Reads"; "Species"]
             ["SpeciesX"; "4"; "SpeciesY"]) "Species"
  = Ok (Some "SpeciesY").
Proof. reflexivity. Qed.

Example blank_rows_are_skipped :
  length (DictReader.read [["Species"; "Reads"]; []; ["SpeciesX"; "4"]; []])
  = 1.
Proof. reflexivity. Qed.

(** A field with a comma is written between quotes, [None] as nothing. *)
Example writerow_quotes :
  Writer.writerow [PyStr "a,b"; PyNone]
  = String Str.dquote ("a,b" +:+ String Str.dquote ",")
    +:+ Writer.lineterminator.
Proof. reflexivity. Qed.

(** ** Aggregation *)

Section aggregation.
Context (fs : gmap string (list (list string))) (search_species : string).

(** The inner loop, when it completes: the counter grew by the number of
    matching rows and one record per matching row was appended. *)
Lemma scan_lines_inv short ds c acc c' acc' :
  foldM (scan_line search_species short) (c, acc) ds = Ok (c', acc') →
  c' = (c + length (filter (species_is search_species) ds))%nat ∧
  acc' = acc ++
    ((λ d, SearchResults short (reads_field d))
       <$> filter (species_is search_species) ds).
Proof.
  revert c acc. induction ds as [|d ds IH]; intros c acc H.
  - simpl in H. simplify_eq. rewrite filter_nil. simpl.
    by rewrite Nat.add_0_r, app_nil_r.
  - simpl in H. apply bind_Ok_inv in H as ([c1 acc1] & Hline & Hrest).
    apply IH in Hrest as [-> ->]. clear IH.
    unfold scan_line, getitem in Hline. unfold reads_field.
    destruct (named d !! "Species") as [species|] eqn:Hs; [|done].
    simpl in Hline. case_bool_decide as Hq.
    + destruct (named d !! "Reads") as [v|] eqn:Hr; [|done].
      simpl in Hline. simplify_eq.
      rewrite filter_cons_True by done. simpl. rewrite Hr.
      split; [lia|]. by rewrite <- app_assoc.
    + simplify_eq. rewrite filter_cons_False; [done|].
      unfold species_is. rewrite Hs. congruence.
Qed.

Lemma scan_line_without_species short st line :
  named line !! "Species" = None →
  scan_line search_species short st line = Raise (KeyError "Species").
Proof.
  intros Hs. destruct st as [c acc]. unfold scan_line, getitem.
  by rewrite Hs.
Qed.

(** The inner loop completes when every row has both columns. *)
Lemma scan_lines_total short ds st :
  Forall (λ d, is_Some (named d !! "Species") ∧
               is_Some (named d !! "Reads")) ds →
  ∃ st', foldM (scan_line search_species short) st ds = Ok st'.
Proof.
  intros Hds. revert st.
  induction Hds as [|d ds [[s Hs] [r Hr]] _ IH]; intros [c acc].
  - by eexists.
  - simpl. unfold scan_line at 1, getitem. rewrite Hs. simpl.
    case_bool_decide; [rewrite Hr|]; simpl; apply IH.
Qed.

(** The body of the outer loop, when it completes, appends the records
    of the file. *)
Lemma scan_file_inv acc csv_file acc' :
  scan_file fs search_species acc csv_file = Ok acc' →
  acc' = acc ++ file_records fs search_species csv_file.
Proof.
  unfold scan_file, open, file_records, matching_rows.
  destruct (fs !! csv_file) as [rows|]; [|done]. simpl.
  intros ([c1 acc1] & Hloop & Hend)%bind_Ok_inv.
  apply scan_lines_inv in Hloop as [-> ->].
  destruct (filter (species_is search_species) (DictReader.read rows))
    as [|d ms].
  - simpl in *. rewrite app_nil_r in Hend. by simplify_eq.
  - simpl in Hend. by simplify_eq.
Qed.

Lemma scan_file_total acc csv_file :
  well_formed fs csv_file →
  ∃ acc', scan_file fs search_species acc csv_file = Ok acc'.
Proof.
  intros (header & data & Hopen & Hs & Hr).
  unfold scan_file, open. rewrite Hopen, bind_Ok. cbv zeta.
  change (rows (File csv_file (header :: data))) with (header :: data).
  destruct (scan_lines_total (display_name csv_file)
              (DictReader.read (header :: data)) (0%nat, acc))
    as [[c1 acc1] Hloop].
  { apply Forall_forall. intros d Hd.
    by rewrite !(DictReaderFacts.read_is_Some header data d). }
  change (shorten_name (File csv_file (header :: data)))
    with (display_name csv_file).
  rewrite Hloop, bind_Ok. destruct (c1 =? 0)%nat; by eexists.
Qed.

Lemma scan_files_inv csv_list acc results :
  foldM (scan_file fs search_species) acc csv_list = Ok results →
  results = acc ++ (csv_list ≫= file_records fs search_species).
Proof.
  revert acc. induction csv_list as [|csv_file csv_list IH]; intros acc H.
  - simpl in H. simplify_eq. by rewrite app_nil_r.
  - simpl in H. apply bind_Ok_inv in H as (acc1 & Hfile & Hrest).
    apply scan_file_inv in Hfile as ->. apply IH in Hrest as ->.
    by rewrite <- app_assoc.
Qed.

Lemma scan_files_total csv_list acc :
  Forall (well_formed fs) csv_list →
  ∃ results, foldM (scan_file fs search_species) acc csv_list = Ok results.
Proof.
  intros Hwf. revert acc.
  induction Hwf as [|csv_file csv_list Hfile _ IH]; intros acc.
  - by eexists.
  - simpl. destruct (scan_file_total acc csv_file Hfile) as [acc1 ->].
    apply IH.
Qed.

Lemma create_species_dict_inv csv_list results :
  create_species_dict fs csv_list search_species = Ok results →
  results = csv_list ≫= file_records fs search_species.
Proof. intros H. by apply scan_files_inv in H. Qed.

Lemma create_species_dict_wf csv_list :
  Forall (well_formed fs) csv_list →
  create_species_dict fs csv_list search_species
    = Ok (csv_list ≫= file_records fs search_species).
Proof.
  intros Hwf. destruct (scan_files_total csv_list [] Hwf) as [results H].
  unfold create_species_dict. rewrite H. f_equal.
  by apply create_species_dict_inv.
Qed.

(** The number of records of a file and the names they carry. *)
Lemma file_records_length csv_file :
  length (file_records fs search_species csv_file)
    = (1 `max` length (matching_rows fs search_species csv_file))%nat.
Proof.
  unfold file_records.
  destruct (matching_rows fs search_species csv_file) as [|d ms]; [done|].
  rewrite length_fmap. simpl. lia.
Qed.

Lemma file_records_filename csv_file :
  filename <$> file_records fs search_species csv_file
    = replicate (1 `max` length (matching_rows fs search_species csv_file))
                (display_name csv_file).
Proof.
  unfold file_records.
  destruct (matching_rows fs search_species csv_file) as [|d ms];
    [reflexivity|].
  replace (1 `max` length (d :: ms))%nat with (length (d :: ms))
    by (simpl; lia).
  generalize (d :: ms). clear. intros l.
  induction l as [|d l IH]; [done|]. simpl. by rewrite <- IH.
Qed.

End aggregation.

Lemma fmap_bind_list {A B C : Type} (f : B → C) (g : A → list B) (l : list A) :
  f <$> (l ≫= g) = l ≫= (λ x, f <$> g x).
Proof.
  induction l as [|x l IH]; [done|]. by rewrite !bind_cons, fmap_app, IH.
Qed.

Lemma length_bind_ge {A B : Type} (g : A → list B) (l : list A) :
  (∀ x, 1 ≤ length (g x)) → length l ≤ length (l ≫= g).
Proof.
  intros Hg. induction l as [|x l IH]; [done|].
  rewrite bind_cons, length_app. specialize (Hg x). simpl. lia.
Qed.

Lemma length_bind_sum {A B : Type} (g : A → list B) (l : list A) :
  length (l ≫= g) = sum_list ((λ x, length (g x)) <$> l).
Proof.
  induction l as [|x l IH]; [done|].
  rewrite bind_cons, length_app, IH. done.
Qed.

Lemma scenario_well_formed :
  Forall (well_formed (files scenario)) (listing scenario).
Proof.
  repeat constructor; eexists _, _; (split; [reflexivity|]);
    split; in_list.
Qed.

(** C1, as the code has it: when every file of the list is a source file
    (it opens and has the [Species] and [Reads] columns), the aggregation
    returns, file after file, one record per row whose [Species] field is
    the query, carrying the [Reads] field of that row, and a single record
    with [reads = 0] for a file without such a row.  A file with [n]
    matching rows has [max 1 n] records. *)
Theorem create_species_dict_records
  (fs : gmap string (list (list string))) (csv_list : list string)
  (search_species : string) :
  Forall (well_formed fs) csv_list →
  create_species_dict fs csv_list search_species
    = Ok (csv_list ≫= file_records fs search_species) ∧
  ∀ csv_file,
    length (file_records fs search_species csv_file)
      = (1 `max` length (matching_rows fs search_species csv_file))%nat.
Proof.
  intros Hwf. split.
  - by apply create_species_dict_wf.
  - apply file_records_length.
Qed.

Lemma create_species_dict_records_witness :
  create_species_dict (files scenario) (listing scenario) "SpeciesX"
  = Ok [SearchResults "A" (PyStr "10"); SearchResults "A" (PyStr "7");
        SearchResults "B" (PyInt 0)].
Proof.
  rewrite (proj1 (create_species_dict_records (files scenario)
                    (listing scenario) "SpeciesX" scenario_well_formed)).
  vm_compute. reflexivity.
Defined.

(** C1 as the specification words it fails on the first file of the
    scenario: two rows match, the aggregation returns two records for the
    file, and their [reads] are the fields ["10"] and ["7"], not the
    count [2]. *)
Lemma one_record_per_matching_row :
  length (matching_rows (files scenario) "SpeciesX" "A_final_results.csv") = 2
  ∧ create_species_dict (files scenario) ["A_final_results.csv"] "SpeciesX"
    = Ok [SearchResults "A" (PyStr "10"); SearchResults "A" (PyStr "7")]
  ∧ create_species_dict (files scenario) ["A_final_results.csv"] "SpeciesX"
    ≠ Ok [SearchResults "A" (PyInt 2)].
Proof. repeat split; try reflexivity. vm_compute. discriminate. Qed.

(** Discovery keeps a listing all of whose names qualify. *)
Lemma glob_keeps (pl : platform) (names : list string) :
  normcase pl "*final_results.csv" = "*final_results.csv" →
  Forall (λ n, Glob.ishidden n = false ∧
               ∃ k, normcase pl n = k +:+ "final_results.csv") names →
  Glob.glob pl names "*final_results.csv" = names.
Proof.
  intros Hpat Hall. unfold Glob.glob, Glob.glob1, Glob.fnmatch_filter.
  rewrite Hpat, GlobFacts.translate_final_results.
  change (negb (Glob.ishidden "*final_results.csv")) with true.
  cbv beta iota zeta. rewrite list_filter_filter.
  induction Hall as [|n names [Hhidden Hends] _ IH]; [done|].
  rewrite filter_cons_True; [by rewrite IH|].
  rewrite Is_true_true, GlobFacts.matches_star_lits.
  rewrite Is_true_true, negb_true_iff. done.
Qed.

(** C2, as the code has it: on every platform whose [os.path.normcase]
    leaves the pattern as it is and the two file names ending in
    [final_results.csv], the scenario exports three data rows, the two
    [Reads] fields of the matching rows of [A] and the [0] of [B]; every
    line of the exported file ends with a carriage return followed by
    [os.linesep]. *)
Theorem scenario_export (pl : platform) :
  normcase pl "*final_results.csv" = "*final_results.csv" →
  (∃ k, normcase pl "A_final_results.csv" = k +:+ "final_results.csv") →
  (∃ k, normcase pl "B_final_results.csv" = k +:+ "final_results.csv") →
  create_species_dict (files scenario)
    (Glob.glob pl (listing scenario) "*final_results.csv") "SpeciesX"
  = Ok [SearchResults "A" (PyStr "10"); SearchResults "A" (PyStr "7");
        SearchResults "B" (PyInt 0)] ∧
  main pl scenario "SpeciesX"
  = Ok ("SpeciesX.csv",
        "filename,reads" +:+ String Str.CR (linesep pl) +:+
        "A,10" +:+ String Str.CR (linesep pl) +:+
        "A,7" +:+ String Str.CR (linesep pl) +:+
        "B,0" +:+ String Str.CR (linesep pl)).
Proof.
  intros Hpat HA HB.
  assert (Glob.glob pl (listing scenario) "*final_results.csv"
          = ["A_final_results.csv"; "B_final_results.csv"]) as Hglob.
  { apply glob_keeps; [done|]. by repeat constructor. }
  assert (create_species_dict (files scenario)
            ["A_final_results.csv"; "B_final_results.csv"] "SpeciesX"
          = Ok [SearchResults "A" (PyStr "10"); SearchResults "A" (PyStr "7");
                SearchResults "B" (PyInt 0)]) as Hagg
    by (vm_compute; reflexivity).
  unfold main. rewrite Hglob, Hagg. split; [done|].
  rewrite bind_Ok. vm_compute. by rewrite StrFacts.app_nil_r.
Qed.

Lemma scenario_export_witness :
  main posix scenario "SpeciesX"
  = Ok ("SpeciesX.csv",
        "filename,reads" +:+ Writer.lineterminator +:+
        "A,10" +:+ Writer.lineterminator +:+
        "A,7" +:+ Writer.lineterminator +:+
        "B,0" +:+ Writer.lineterminator).
Proof.
  apply (scenario_export posix).
  - reflexivity.
  - by exists "A_".
  - by exists "B_".
Defined.

(** C2 as the specification words it fails: neither the records nor the
    exported file are those of the table [[("A", 2), ("B", 0)]]. *)
Lemma scenario_export_is_not_counts :
  create_species_dict (files scenario)
    (Glob.glob posix (listing scenario) "*final_results.csv") "SpeciesX"
  ≠ Ok [SearchResults "A" (PyInt 2); SearchResults "B" (PyInt 0)] ∧
  main posix scenario "SpeciesX"
  ≠ Ok (results_to_csv posix "SpeciesX"
          [SearchResults "A" (PyInt 2); SearchResults "B" (PyInt 0)]).
Proof. split; vm_compute; discriminate. Qed.

(** C3, as the code has it: when the pipeline completes, the exported data
    rows are those of the records, in their order; the records follow the
    discovered files in discovery order, a file with [n] matching rows
    taking [max 1 n] consecutive rows under its display name; the number of
    data rows is the sum of these, which is at least the number of
    discovered files. *)
Theorem export_rows_follow_files (pl : platform) (working_dir : directory)
  (search_species : string) (out : string * string) :
  main pl working_dir search_species = Ok out →
  ∃ results,
    create_species_dict (files working_dir)
      (Glob.glob pl (listing working_dir) "*final_results.csv") search_species
      = Ok results ∧
    out.2 = Writer.text_write pl
              (Writer.writeheader +:+
               String.concat "" (Writer.writerow <$>
                                 (Writer.dict_to_list <$> results))) ∧
    filename <$> results
      = Glob.glob pl (listing working_dir) "*final_results.csv" ≫=
          (λ csv_file,
             replicate
               (1 `max` length (matching_rows (files working_dir)
                                  search_species csv_file))
               (display_name csv_file)) ∧
    length results
      = sum_list
          ((λ csv_file,
              1 `max` length (matching_rows (files working_dir)
                                search_species csv_file))
           <$> Glob.glob pl (listing working_dir) "*final_results.csv") ∧
    length (Glob.glob pl (listing working_dir) "*final_results.csv")
      ≤ length results.
Proof.
  unfold main. intros (results & Hagg & Hout)%bind_Ok_inv.
  exists results. simplify_eq. split; [done|]. split; [done|].
  apply create_species_dict_inv in Hagg as ->. repeat split.
  - rewrite fmap_bind_list. apply list_bind_ext; [|done].
    intros csv_file. apply file_records_filename.
  - rewrite length_bind_sum. f_equal. apply list_fmap_ext.
    intros _ csv_file _. apply file_records_length.
  - apply length_bind_ge. intros csv_file. rewrite file_records_length. lia.
Qed.

Lemma export_rows_follow_files_witness :
  ∃ results,
    create_species_dict (files scenario)
      (Glob.glob posix (listing scenario) "*final_results.csv") "SpeciesX"
      = Ok results ∧
    filename <$> results = ["A"; "A"; "B"] ∧
    length (Glob.glob posix (listing scenario) "*final_results.csv")
      ≤ length results.
Proof.
  destruct (export_rows_follow_files posix scenario "SpeciesX"
              (results_to_csv posix "SpeciesX"
                 [SearchResults "A" (PyStr "10"); SearchResults "A" (PyStr "7");
                  SearchResults "B" (PyInt 0)]))
    as (results & Hagg & _ & Hnames & _ & Hlen).
  - vm_compute. reflexivity.
  - exists results. split; [exact Hagg|]. split; [|exact Hlen].
    rewrite Hnames. vm_compute. reflexivity.
Defined.

(** C3 as the specification words it fails on the scenario: two files are
    discovered and three data rows are exported. *)
Lemma more_rows_than_files :
  length (Glob.glob posix (listing scenario) "*final_results.csv") = 2 ∧
  main posix scenario "SpeciesX"
  = Ok (results_to_csv posix "SpeciesX"
          [SearchResults "A" (PyStr "10"); SearchResults "A" (PyStr "7");
           SearchResults "B" (PyInt 0)]) ∧
  length (Writer.dict_to_list <$>
          [SearchResults "A" (PyStr "10"); SearchResults "A" (PyStr "7");
           SearchResults "B" (PyInt 0)]) = 3.
Proof. repeat split; vm_compute; reflexivity. Qed.



(** C5, as the code has it: a file of the list that cannot be opened makes
    the aggregation raise, and so does a file whose header lacks the
    [Species] column when it has a non-blank row after the header.  The
    body of the loop raises [IOError] on the first kind of file and
    [KeyError] on the second. *)
Theorem bad_file_raises
  (fs : gmap string (list (list string))) (csv_list : list string)
  (search_species csv_file : string) :
  csv_file ∈ csv_list →
  (fs !! csv_file = None ∨
   ∃ header data row,
     fs !! csv_file = Some (header :: data) ∧ ("Species" ∉ header) ∧
     row ∈ data ∧ row ≠ []) →
  (∃ e, create_species_dict fs csv_list search_species = Raise e) ∧
  ∀ results_list,
    scan_file fs search_species results_list csv_file
    = Raise (match fs !! csv_file with
             | None => IOError csv_file
             | Some _ => KeyError "Species"
             end).
Proof.
  intros Hin Hbad.
  assert (∀ results_list,
    scan_file fs search_species results_list csv_file
    = Raise (match fs !! csv_file with
             | None => IOError csv_file
             | Some _ => KeyError "Species"
             end)) as Hbody.
  { intros results_list. unfold scan_file, open.
    destruct Hbad as [->|(header & data & row & -> & Hno & Hrow & Hne)];
      [done|].
    rewrite bind_Ok. cbv zeta.
    change (rows (File csv_file (header :: data))) with (header :: data).
    unfold DictReader.read.
    destruct (filter (λ row, row ≠ []) data) as [|r rs] eqn:Hf.
    { assert (row ∈ filter (λ row, row ≠ []) data) as Hrow'
        by (by apply list_elem_of_filter).
      rewrite Hf in Hrow'. by apply elem_of_nil in Hrow'. }
    rewrite fmap_cons. cbn [foldM].
    rewrite scan_line_without_species; [done|].
    apply eq_None_not_Some.
    by rewrite (DictReaderFacts.next_dict_is_Some header r). }
  split; [|done].
  apply (foldM_raises _ _ _ csv_file Hin). intros b. eexists. apply Hbody.
Qed.

Lemma bad_file_raises_witness :
  ∃ e,
    create_species_dict
      (<["g_final_results.csv" := [["Genus"; "Reads"]; ["Bacteroides"; "4"]]]>
         (files scenario))
      ["A_final_results.csv"; "g_final_results.csv"] "SpeciesX" = Raise e.
Proof.
  apply (bad_file_raises _ _ "SpeciesX" "g_final_results.csv").
  - in_list.
  - right. exists ["Genus"; "Reads"], [["Bacteroides"; "4"]], ["Bacteroides"; "4"].
    split; [reflexivity|]. split; [not_in_list|]. split; [in_list|done].
Defined.

(** C5 as the specification words it fails on a file whose header lacks
    the [Species] column and which has no row after the header: the
    aggregation returns, with a record for the file. *)
Lemma missing_column_passes_without_rows :
  ("Species" ∉ ["Genus"; "Reads"]) ∧
  create_species_dict (<["g_final_results.csv" := [["Genus"; "Reads"]]]> ∅)
    ["g_final_results.csv"] "SpeciesX"
  = Ok [SearchResults "g" (PyInt 0)].
Proof. split; [not_in_list|reflexivity]. Qed.

(** C10. A file made of a header row alone, whatever the header, makes
    the body of the loop append the record of the file with [reads = 0]
    and nothing else; the aggregation of that file alone returns this
    record. *)
Theorem header_only_gives_zero
  (fs : gmap string (list (list string))) (search_species csv_file : string)
  (header : list string) :
  fs !! csv_file = Some [header] →
  (∀ results_list,
     scan_file fs search_species results_list csv_file
     = Ok (results_list ++ [SearchResults (display_name csv_file) (PyInt 0)]))
  ∧ create_species_dict fs [csv_file] search_species
    = Ok [SearchResults (display_name csv_file) (PyInt 0)].
Proof.
  intros Hopen.
  assert (∀ results_list,
     scan_file fs search_species results_list csv_file
     = Ok (results_list ++ [SearchResults (display_name csv_file) (PyInt 0)]))
    as Hbody.
  { intros results_list. unfold scan_file, open. rewrite Hopen.
    reflexivity. }
  split; [done|]. unfold create_species_dict. cbn [foldM].
  by rewrite Hbody.
Qed.

Lemma header_only_gives_zero_witness :
  create_species_dict (<["g_final_results.csv" := [["Genus"; "Reads"]]]> ∅)
    ["g_final_results.csv"] "SpeciesX"
  = Ok [SearchResults "g" (PyInt 0)].
Proof.
  apply (header_only_gives_zero _ "SpeciesX" "g_final_results.csv"
           ["Genus"; "Reads"]).
  reflexivity.
Defined.

(** C7. Two runs with the same query give the same outcome, and so the
    same exported file, byte for byte, when they discover the same file
    names in the same order and every discovered file has the same rows in
    both. *)
Theorem main_deterministic (pl : platform) (d1 d2 : directory)
  (search_species : string) :
  Glob.glob pl (listing d1) "*final_results.csv"
    = Glob.glob pl (listing d2) "*final_results.csv" →
  (∀ csv_file,
     csv_file ∈ Glob.glob pl (listing d1) "*final_results.csv" →
     files d1 !! csv_file = files d2 !! csv_file) →
  main pl d1 search_species = main pl d2 search_species.
Proof.
  intros Hlist Hfiles. unfold main. rewrite <- Hlist.
  unfold create_species_dict.
  rewrite (foldM_ext (scan_file (files d1) search_species)
                     (scan_file (files d2) search_species)); [done|].
  intros csv_file Hin results_list. unfold scan_file, open.
  by rewrite (Hfiles csv_file Hin).
Qed.

Lemma main_deterministic_witness :
  main posix scenario "SpeciesX" = main posix scenario_rerun "SpeciesX".
Proof.
  apply main_deterministic.
  - reflexivity.
  - change (Glob.glob posix (listing scenario) "*final_results.csv")
      with ["A_final_results.csv"; "B_final_results.csv"].
    intros csv_file Hin.
    repeat (apply elem_of_cons in Hin as [->|Hin]; [reflexivity|]).
    by apply elem_of_nil in Hin.
Defined.

(** * Further properties *)

(** ** [str.split] and the display name *)

Module SplitFacts.
Import Str StrFacts.

Lemma split_go_skip sep k cur u t :
  String.length u = k → split_go sep k cur (u +:+ t) = split_go sep 0 cur t.
Proof.
  revert k. induction u as [|c u IH]; intros k Hk; simpl in Hk; subst k.
  - done.
  - rewrite app_cons. cbn [split_go]. by apply IH.
Qed.

(** Passing over a separator closes the current piece. *)
Lemma split_go_separator sep cur t :
  sep ≠ "" →
  split_go sep 0 cur (sep +:+ t) = cur :: split_go sep 0 "" t.
Proof.
  intros Hsep. destruct sep as [|c sep]; [done|].
  pose proof (startswith_app (String c sep) t) as Hs.
  rewrite app_cons in Hs |- *. cbn [split_go]. rewrite Hs.
  f_equal. apply split_go_skip. simpl. lia.
Qed.

Lemma split_go_cons sep k cur s : ∃ piece pieces,
  split_go sep k cur s = piece :: pieces.
Proof.
  revert k cur. induction s as [|c s IH]; intros k cur; cbn [split_go].
  - by eexists _, _.
  - destruct k as [|k]; [|apply IH].
    destruct (startswith sep (String c s)); [by eexists _, _|apply IH].
Qed.

Lemma join_with_cons sep piece pieces :
  pieces ≠ [] →
  join_with sep (piece :: pieces) = piece +:+ sep +:+ join_with sep pieces.
Proof. by destruct pieces. Qed.

Lemma split_go_join sep n : sep ≠ "" → ∀ s cur,
  String.length s < n →
  join_with sep (split_go sep 0 cur s) = cur +:+ s.
Proof.
  intros Hsep. induction n as [|n IH]; intros s cur Hn; [lia|].
  destruct s as [|c s]; [by rewrite app_nil_r|].
  destruct (startswith sep (String c s)) eqn:Hs.
  - pose proof Hs as [t Ht]%startswith_spec. rewrite Ht.
    rewrite split_go_separator by done.
    destruct (split_go_cons sep 0 "" t) as (piece & pieces & Hp).
    rewrite join_with_cons by (by rewrite Hp).
    rewrite IH, app_nil_l; [done|].
    apply (f_equal String.length) in Ht. rewrite length_app in Ht.
    destruct sep; [done|]. simpl in *. lia.
  - cbn [split_go]. rewrite Hs, IH by (simpl in Hn; lia).
    by rewrite app_assoc.
Qed.

Lemma before_first_prefix sep s : ∃ r, s = before_first sep s +:+ r.
Proof.
  induction s as [|c s [r Hr]]; [by exists ""|]. cbn [before_first].
  destruct (startswith sep (String c s)).
  - by exists (String c s).
  - exists r. by rewrite app_cons, <- Hr.
Qed.

Lemma before_first_free sep s a b :
  sep ≠ "" → before_first sep s ≠ a +:+ sep +:+ b.
Proof.
  intros Hsep. revert a. induction s as [|c s IH]; intros a Hab.
  - simpl in Hab. apply (f_equal String.length) in Hab.
    rewrite !length_app in Hab. destruct sep; [done|]. simpl in Hab. lia.
  - cbn [before_first] in Hab.
    destruct (startswith sep (String c s)) eqn:Hs.
    + apply (f_equal String.length) in Hab.
      rewrite !length_app in Hab. destruct sep; [done|]. simpl in Hab. lia.
    + destruct a as [|c' a].
      * rewrite app_nil_l in Hab.
        destruct (before_first_prefix sep s) as [r Hr].
        assert (startswith sep (String c s) = true) as Hs'; [|congruence].
        apply startswith_spec. exists (b +:+ r).
        rewrite <- app_assoc, <- Hab, app_cons. by rewrite <- Hr.
      * rewrite app_cons in Hab. simplify_eq. by apply (IH a).
Qed.

End SplitFacts.

(** X1. Splitting a string at a non-empty separator and joining the pieces
    with the separator gives the string back, and there is always a first
    piece. *)
Theorem split_join (s sep : string) :
  sep ≠ "" →
  join_with sep (Str.split s sep) = s ∧
  ∃ piece pieces, Str.split s sep = piece :: pieces.
Proof.
  intros Hsep. unfold Str.split. split.
  - rewrite (SplitFacts.split_go_join sep (S (String.length s))) by (done || lia).
    apply StrFacts.app_nil_l.
  - apply SplitFacts.split_go_cons.
Qed.

Lemma split_join_witness :
  join_with "_final_results.csv"
    (Str.split "a_final_results.csv_final_results.csv" "_final_results.csv")
  = "a_final_results.csv_final_results.csv".
Proof. by apply (split_join _ "_final_results.csv"). Defined.

(** X2. The display name is what stands in front of the first occurrence
    of [_final_results.csv] in the file name, whatever follows it. *)
Theorem shorten_name_first_occurrence (f : file) (p r : string) :
  name f = p +:+ results_suffix +:+ r →
  (∀ a b, name f = a +:+ results_suffix +:+ b →
          String.length p ≤ String.length a) →
  shorten_name f = p.
Proof.
  intros Hname Hfirst. rewrite shorten_name_before_first, Hname.
  apply StrFacts.before_first_app. by rewrite <- Hname.
Qed.

Lemma shorten_name_first_occurrence_witness :
  shorten_name (File "x_final_results.csvyfinal_results.csv" []) = "x".
Proof.
  apply (shorten_name_first_occurrence _ "x" "yfinal_results.csv").
  - reflexivity.
  - intros [|c a] b Hab; [|simpl; lia].
    assert (Str.startswith results_suffix
              "x_final_results.csvyfinal_results.csv" = true) as Hs
      by (apply StrFacts.startswith_spec; eauto).
    vm_compute in Hs. discriminate Hs.
Defined.

(** X3. The display name is always a prefix of the file name, and the
    literal [_final_results.csv] never occurs in it. *)
Theorem shorten_name_prefix_free (f : file) :
  (∃ r, name f = shorten_name f +:+ r) ∧
  ∀ a b, shorten_name f ≠ a +:+ results_suffix +:+ b.
Proof.
  rewrite shorten_name_before_first. split.
  - apply SplitFacts.before_first_prefix.
  - intros a b. by apply SplitFacts.before_first_free.
Qed.

(** ** Columns of a row dictionary *)

Module ColumnFacts.
Import DictReader.

Lemma zip_insert_notin (kvs : list (string * string))
  (d : gmap string (option string)) (k : string) :
  k ∉ kvs.*1 →
  foldl (λ d kv, <[kv.1 := Some kv.2]> d) d kvs !! k = d !! k.
Proof.
  revert d. induction kvs as [|[k' v] kvs IH]; intros d Hk; [done|].
  simpl in *. apply not_elem_of_cons in Hk as [Hne Hk].
  rewrite IH by done. by rewrite lookup_insert_ne.
Qed.

(** [dict(zip(...))] keeps for a key the field under its last column. *)
Lemma zip_insert_last (header row : list string)
  (d : gmap string (option string)) (k v : string) (i : nat) :
  header !! i = Some k → row !! i = Some v →
  (∀ j, i < j → j < length row → header !! j ≠ Some k) →
  foldl (λ d kv, <[kv.1 := Some kv.2]> d) d (zip header row) !! k
    = Some (Some v).
Proof.
  revert row d i. induction header as [|k0 header IH];
    intros [|v0 row] d i Hk Hv Hlast; try done.
  destruct i as [|i]; simpl in *.
  - simplify_eq. rewrite zip_insert_notin; [by rewrite lookup_insert_eq|].
    rewrite DictReaderFacts.fst_zip_take.
    intros (j & Hj & Hlt)%elem_of_take.
    apply (Hlast (S j)); [lia|lia|done].
  - apply (IH row _ i); [done..|].
    intros j Hij Hj. apply (Hlast (S j)); lia.
Qed.

Lemma fill_restval_lookup (keys : list string)
  (d : gmap string (option string)) (k : string) :
  fill_restval keys d !! k = if decide (k ∈ keys) then Some None else d !! k.
Proof.
  unfold fill_restval. revert d.
  induction keys as [|k' keys IH]; intros d; [done|].
  simpl. rewrite IH. destruct (decide (k ∈ keys)) as [Hin|Hnotin].
  - rewrite decide_True; [done|by right].
  - destruct (decide (k' = k)) as [->|Hne].
    + rewrite lookup_insert_eq. rewrite decide_True; [done|by left].
    + rewrite lookup_insert_ne by done.
      rewrite decide_False; [done|]. by intros [?|?]%elem_of_cons.
Qed.

(** The value of a key is the field under its last column, [None] when
    the row is too short to have that field. *)
Lemma next_dict_last_column header row key i :
  last_column header key i →
  named (next_dict header row) !! key = Some (row !! i).
Proof.
  intros [Hk Hlast]. pose proof (lookup_lt_Some _ _ _ Hk) as Hi.
  assert (key ∈ drop (length row) header ↔ length row ≤ i) as Hdrop.
  { rewrite list_elem_of_lookup. setoid_rewrite lookup_drop. split.
    - intros [j Hj]. destruct (decide (length row ≤ i)); [done|].
      destruct (Hlast (length row + j)); [lia|done].
    - intros Hle. exists (i - length row).
      by replace (length row + (i - length row)) with i by lia. }
  destruct (row !! i) as [v|] eqn:Hv.
  - pose proof (lookup_lt_Some _ _ _ Hv) as Hr.
    assert (dict_zip header row !! key = Some (Some v)) as Hzip.
    { apply (zip_insert_last _ _ _ _ _ i); [done..|]. intros j ? _.
      by apply Hlast. }
    unfold next_dict. destruct (length header <? length row); [done|].
    destruct (length row <? length header); [|done].
    simpl. rewrite fill_restval_lookup, decide_False; [done|].
    rewrite Hdrop. lia.
  - apply lookup_ge_None in Hv. unfold next_dict.
    destruct (Nat.ltb_spec (length header) (length row)); [lia|].
    destruct (Nat.ltb_spec (length row) (length header)); [|lia].
    simpl. rewrite fill_restval_lookup, decide_True; [done|].
    by apply Hdrop.
Qed.

End ColumnFacts.

(** X4. In the dictionary [csv.DictReader] makes of a row, a name of the
    header reads as the field of the row under the last column of that
    name, and as [None] when the row is too short to have that field. *)
Theorem row_dict_lookup (header row : list string) (key : string) (i : nat) :
  last_column header key i →
  named (DictReader.next_dict header row) !! key = Some (row !! i).
Proof. apply ColumnFacts.next_dict_last_column. Qed.

Lemma row_dict_lookup_witness :
  named (DictReader.next_dict ["Species"; "Reads"; "Species"]
           ["SpeciesX"; "4"; "SpeciesY"]) !! "Species"
  = Some (Some "SpeciesY") ∧
  named (DictReader.next_dict ["Species"; "Reads"; "Species"]
           ["SpeciesX"; "4"]) !! "Species"
  = Some None.
Proof.
  assert (last_column ["Species"; "Reads"; "Species"] "Species" 2) as Hlast.
  { split; [reflexivity|]. intros [|[|[|j]]] Hj; (lia || done). }
  split.
  - apply (row_dict_lookup _ ["SpeciesX"; "4"; "SpeciesY"] _ 2 Hlast).
  - apply (row_dict_lookup _ ["SpeciesX"; "4"] _ 2 Hlast).
Defined.

(** ** More on the aggregation *)

Lemma filter_fmap_list {A B : Type} (f : A → B) (P : B → Prop)
  `{!∀ y, Decision (P y)} (l : list A) :
  filter P (f <$> l) = f <$> filter (λ x, P (f x)) l.
Proof.
  induction l as [|x l IH]; [done|]. rewrite fmap_cons, !filter_cons.
  destruct (decide (P (f x))); by rewrite IH.
Qed.

Lemma foldM_append {A B : Type} (body : B → A → result B) b l1 l2 :
  foldM body b (l1 ++ l2) = foldM body b l1 ≫= λ b', foldM body b' l2.
Proof.
  revert b. induction l1 as [|a l1 IH]; intros b; [done|].
  simpl. destruct (body b a) as [b'|e]; [|done]. apply IH.
Qed.

Section more_aggregation.
Context (fs : gmap string (list (list string))) (search_species : string).

(** The rows of a file that match, read off the raw rows. *)
Lemma matching_rows_by_column csv_file header data i :
  fs !! csv_file = Some (header :: data) →
  last_column header "Species" i →
  matching_rows fs search_species csv_file
    = DictReader.next_dict header
        <$> filter (λ row, row ≠ [] ∧ row !! i = Some search_species) data.
Proof.
  intros Hopen Hi. unfold matching_rows. rewrite Hopen.
  unfold DictReader.read. rewrite filter_fmap_list, list_filter_filter.
  f_equal. apply list_filter_iff. intros row. unfold species_is.
  rewrite (ColumnFacts.next_dict_last_column header row "Species" i Hi).
  split; intros [? ?]; split; congruence.
Qed.

(** The body of the inner loop, case by case. *)
Lemma scan_line_eq short c acc d :
  scan_line search_species short (c, acc) d
    = match named d !! "Species" with
      | None => Raise (KeyError "Species")
      | Some v =>
          if bool_decide (v = Some search_species) then
            match named d !! "Reads" with
            | None => Raise (KeyError "Reads")
            | Some w =>
                Ok (S c, acc ++ [SearchResults short (of_field w)])
            end
          else Ok (c, acc)
      end.
Proof.
  unfold scan_line, getitem.
  destruct (named d !! "Species") as [v|]; [|done]. rewrite bind_Ok.
  case_bool_decide; [|done]. by destruct (named d !! "Reads").
Qed.

(** With the [Species] column and without the [Reads] column the inner
    loop raises at the first matching row and passes without one. *)
Lemma scan_lines_without_reads short ds c acc :
  Forall (λ d, is_Some (named d !! "Species") ∧ named d !! "Reads" = None)
         ds →
  foldM (scan_line search_species short) (c, acc) ds
    = match filter (species_is search_species) ds with
      | [] => Ok (c, acc)
      | _ => Raise (KeyError "Reads")
      end.
Proof.
  induction 1 as [|d ds [[v Hs] Hr] _ IH]; [done|].
  cbn [foldM]. rewrite scan_line_eq, Hs, Hr.
  case_bool_decide as Hq.
  - rewrite filter_cons_True; [done|].
    unfold species_is. by rewrite Hs, Hq.
  - rewrite bind_Ok, IH. rewrite filter_cons_False; [done|].
    unfold species_is. rewrite Hs. congruence.
Qed.

(** What the body of the outer loop raises on a file that cannot be
    opened, or that lacks the [Species] column and has a row to read. *)
Lemma scan_file_bad results_list csv_file :
  (fs !! csv_file = None ∨
   ∃ header data row,
     fs !! csv_file = Some (header :: data) ∧ ("Species" ∉ header) ∧
     row ∈ data ∧ row ≠ []) →
  scan_file fs search_species results_list csv_file
    = Raise (match fs !! csv_file with
             | None => IOError csv_file
             | Some _ => KeyError "Species"
             end).
Proof.
  intros Hbad. unfold scan_file, open.
  destruct Hbad as [->|(header & data & row & -> & Hno & Hrow & Hne)];
    [done|].
  rewrite bind_Ok. cbv zeta.
  change (rows (File csv_file (header :: data))) with (header :: data).
  unfold DictReader.read.
  destruct (filter (λ row, row ≠ []) data) as [|r rs] eqn:Hf.
  { assert (row ∈ filter (λ row, row ≠ []) data) as Hrow'
      by (by apply list_elem_of_filter).
    rewrite Hf in Hrow'. by apply elem_of_nil in Hrow'. }
  rewrite fmap_cons. cbn [foldM].
  rewrite scan_line_without_species; [done|].
  apply eq_None_not_Some.
  by rewrite (DictReaderFacts.next_dict_is_Some header r).
Qed.

(** The records already collected pass through the loops unchanged. *)
Lemma scan_lines_acc short ds c acc :
  foldM (scan_line search_species short) (c, acc) ds
    = foldM (scan_line search_species short) (c, []) ds
      ≫= λ st, Ok (st.1, acc ++ st.2).
Proof.
  revert c acc. induction ds as [|d ds IH]; intros c acc.
  - simpl. by rewrite app_nil_r.
  - cbn [foldM]. rewrite !scan_line_eq.
    destruct (named d !! "Species") as [v|]; [|done].
    case_bool_decide; [|by rewrite !bind_Ok].
    destruct (named d !! "Reads") as [w|]; [|done]. rewrite !bind_Ok.
    rewrite (IH _ (acc ++ _)), (IH _ ([] ++ _)).
    destruct (foldM _ (S c, []) ds) as [[c' acc']|e]; [|done].
    rewrite !bind_Ok. simpl. by rewrite <- app_assoc.
Qed.

Lemma scan_file_acc acc csv_file :
  scan_file fs search_species acc csv_file
    = scan_file fs search_species [] csv_file ≫= λ r, Ok (acc ++ r).
Proof.
  unfold scan_file, open. destruct (fs !! csv_file) as [rows|]; [|done].
  rewrite !bind_Ok. cbv zeta. rewrite scan_lines_acc.
  destruct (foldM _ (0, []) _) as [[c' acc']|e]; [|done].
  rewrite !bind_Ok. simpl. destruct (c' =? 0); [|done].
  rewrite bind_Ok. by rewrite <- app_assoc.
Qed.

Lemma scan_files_acc acc csv_list :
  foldM (scan_file fs search_species) acc csv_list
    = foldM (scan_file fs search_species) [] csv_list
      ≫= λ r, Ok (acc ++ r).
Proof.
  revert acc. induction csv_list as [|csv_file csv_list IH]; intros acc.
  - simpl. by rewrite app_nil_r.
  - cbn [foldM]. rewrite scan_file_acc.
    destruct (scan_file fs search_species [] csv_file) as [r|e]; [|done].
    rewrite !bind_Ok. rewrite IH, (IH r).
    destruct (foldM _ [] csv_list) as [r'|e]; [|done].
    rewrite !bind_Ok. by rewrite <- app_assoc.
Qed.

Lemma sum_max_one_length (ns : list nat) :
  sum_list ((λ n, 1 `max` n) <$> ns) = length ns ↔ Forall (λ n, n ≤ 1) ns.
Proof.
  assert (∀ ns, length ns ≤ sum_list ((λ n, 1 `max` n) <$> ns)) as Hge.
  { clear. intros ns. induction ns as [|n ns IH]; csimpl; lia. }
  induction ns as [|n ns IH]; [by split|].
  specialize (Hge ns). rewrite Forall_cons, <- IH. csimpl. lia.
Qed.

End more_aggregation.

(** X5. For a file whose header has the columns [Species] and [Reads],
    [i] and [j] being the last columns of these names, the body of the
    outer loop returns and appends one record per non-blank row whose field
    [i] is the query, carrying the field [j] of that row ([None] for a row
    too short to have it), or the single [reads = 0] record when there is
    no such row. *)
Theorem scan_file_by_columns
  (fs : gmap string (list (list string))) (search_species csv_file : string)
  (results_list : list search_results)
  (header : list string) (data : list (list string)) (i j : nat) :
  fs !! csv_file = Some (header :: data) →
  last_column header "Species" i →
  last_column header "Reads" j →
  scan_file fs search_species results_list csv_file
    = Ok (results_list ++
          match filter (λ row, row ≠ [] ∧ row !! i = Some search_species)
                       data with
          | [] => [SearchResults (display_name csv_file) (PyInt 0)]
          | ms => (λ row, SearchResults (display_name csv_file)
                            (of_field (row !! j))) <$> ms
          end).
Proof.
  intros Hopen Hi Hj.
  destruct (scan_file_total fs search_species results_list csv_file)
    as [acc' Hscan].
  { exists header, data. split; [done|].
    split; eapply list_elem_of_lookup_2; [apply Hi|apply Hj]. }
  rewrite Hscan. f_equal. apply scan_file_inv in Hscan as ->. f_equal.
  unfold file_records.
  rewrite (matching_rows_by_column _ _ _ header data i Hopen Hi).
  destruct (filter _ data) as [|row ms]; [done|].
  rewrite fmap_cons. cbv beta iota. rewrite <- (fmap_cons _ row ms).
  rewrite <- list_fmap_compose. apply list_fmap_ext. intros _ row' _.
  simpl. unfold reads_field.
  by rewrite (ColumnFacts.next_dict_last_column header row' "Reads" j Hj).
Qed.

Lemma scan_file_by_columns_witness :
  scan_file
    (<["c_final_results.csv" :=
         [["Species"; "Pathway"; "Reads"]; ["SpeciesX"; "p1"; "10"]; [];
          ["SpeciesY"; "p2"; "3"]; ["SpeciesX"]]]> ∅)
    "SpeciesX" [] "c_final_results.csv"
  = Ok [SearchResults "c" (PyStr "10"); SearchResults "c" PyNone].
Proof.
  rewrite (scan_file_by_columns _ "SpeciesX" "c_final_results.csv" []
             ["Species"; "Pathway"; "Reads"]
             [["SpeciesX"; "p1"; "10"]; []; ["SpeciesY"; "p2"; "3"];
              ["SpeciesX"]] 0 2).
  - vm_compute. reflexivity.
  - reflexivity.
  - split; [reflexivity|]. intros [|[|[|j]]] Hj; (lia || done).
  - split; [reflexivity|]. intros [|[|[|j]]] Hj; (lia || done).
Defined.

(** X6. A file whose header has the [Species] column and lacks the
    [Reads] column makes the body of the outer loop raise [KeyError] for
    the key [Reads] when one of its rows matches, and append the
    [reads = 0] record when none does. *)
Theorem missing_reads_column
  (fs : gmap string (list (list string))) (search_species csv_file : string)
  (results_list : list search_results)
  (header : list string) (data : list (list string)) :
  fs !! csv_file = Some (header :: data) →
  "Species" ∈ header →
  "Reads" ∉ header →
  scan_file fs search_species results_list csv_file
    = match matching_rows fs search_species csv_file with
      | [] => Ok (results_list ++
                  [SearchResults (display_name csv_file) (PyInt 0)])
      | _ => Raise (KeyError "Reads")
      end.
Proof.
  intros Hopen Hs Hr. unfold scan_file, open, matching_rows.
  rewrite Hopen, bind_Ok. cbv zeta.
  change (rows (File csv_file (header :: data))) with (header :: data).
  rewrite scan_lines_without_reads.
  - by destruct (filter _ _).
  - apply Forall_forall. intros d Hd. split.
    + by rewrite (DictReaderFacts.read_is_Some header data d).
    + apply eq_None_not_Some.
      by rewrite (DictReaderFacts.read_is_Some header data d).
Qed.

Lemma missing_reads_column_witness :
  scan_file
    (<["c_final_results.csv" := [["Species"; "Count"]; ["SpeciesX"; "4"]]]> ∅)
    "SpeciesX" [] "c_final_results.csv" = Raise (KeyError "Reads") ∧
  scan_file
    (<["c_final_results.csv" := [["Species"; "Count"]; ["SpeciesX"; "4"]]]> ∅)
    "SpeciesY" [] "c_final_results.csv"
    = Ok [SearchResults "c" (PyInt 0)].
Proof.
  split.
  - rewrite (missing_reads_column _ "SpeciesX" "c_final_results.csv" []
               ["Species"; "Count"] [["SpeciesX"; "4"]]);
      [reflexivity|reflexivity|in_list|not_in_list].
  - rewrite (missing_reads_column _ "SpeciesY" "c_final_results.csv" []
               ["Species"; "Count"] [["SpeciesX"; "4"]]);
      [reflexivity|reflexivity|in_list|not_in_list].
Defined.

(** X7. The first file that cannot be read decides the outcome: when the
    files in front of it are source files, the aggregation raises the
    exception of that file ([IOError] when it cannot be opened, [KeyError]
    when it has a row and no [Species] column), whatever files come after
    it. *)
Theorem first_bad_file_decides
  (fs : gmap string (list (list string))) (search_species csv_file : string)
  (before after : list string) :
  Forall (well_formed fs) before →
  (fs !! csv_file = None ∨
   ∃ header data row,
     fs !! csv_file = Some (header :: data) ∧ ("Species" ∉ header) ∧
     row ∈ data ∧ row ≠ []) →
  create_species_dict fs (before ++ csv_file :: after) search_species
    = Raise (match fs !! csv_file with
             | None => IOError csv_file
             | Some _ => KeyError "Species"
             end).
Proof.
  intros Hwf Hbad. unfold create_species_dict. rewrite foldM_append.
  destruct (scan_files_total fs search_species before [] Hwf) as [r ->].
  rewrite bind_Ok. cbn [foldM]. by rewrite scan_file_bad.
Qed.

Lemma first_bad_file_decides_witness :
  create_species_dict (files scenario)
    ["A_final_results.csv"; "C_final_results.csv"; "D_final_results.csv"]
    "SpeciesX"
  = Raise (IOError "C_final_results.csv").
Proof.
  apply (first_bad_file_decides (files scenario) "SpeciesX"
           "C_final_results.csv" ["A_final_results.csv"]
           ["D_final_results.csv"]).
  - repeat constructor. eexists _, _. split; [reflexivity|]. split; in_list.
  - by left.
Defined.

(** X8. The aggregation of a list made of two parts is the aggregation of
    the first part followed by that of the second: the records of a file
    do not depend on the files scanned before it, and an exception of the
    first part comes before one of the second. *)
Theorem create_species_dict_app
  (fs : gmap string (list (list string))) (search_species : string)
  (l1 l2 : list string) :
  create_species_dict fs (l1 ++ l2) search_species
    = r1 ← create_species_dict fs l1 search_species;
      r2 ← create_species_dict fs l2 search_species;
      Ok (r1 ++ r2).
Proof.
  unfold create_species_dict. rewrite foldM_append.
  destruct (foldM (scan_file fs search_species) [] l1) as [r1|e]; [|done].
  rewrite !bind_Ok. apply scan_files_acc.
Qed.

(** X9. Every record of a result comes from a file of the list: it has
    the display name of that file, and its [reads] is the integer [0] when
    no row of the file matches, the [Reads] field of a matching row
    otherwise. *)
Theorem create_species_dict_sound
  (fs : gmap string (list (list string))) (csv_list : list string)
  (search_species : string) (results : list search_results)
  (r : search_results) :
  create_species_dict fs csv_list search_species = Ok results →
  r ∈ results →
  ∃ csv_file,
    csv_file ∈ csv_list ∧ filename r = display_name csv_file ∧
    ((reads r = PyInt 0 ∧ matching_rows fs search_species csv_file = []) ∨
     ∃ d, d ∈ matching_rows fs search_species csv_file ∧
          reads r = reads_field d).
Proof.
  intros ->%create_species_dict_inv (csv_file & Hr & Hin)%list_elem_of_bind.
  exists csv_file. split; [done|]. unfold file_records in Hr.
  destruct (matching_rows fs search_species csv_file) as [|d ms].
  - apply list_elem_of_singleton in Hr as ->. split; [done|]. by left.
  - apply list_elem_of_fmap in Hr as (d' & -> & Hd'). split; [done|].
    right. by exists d'.
Qed.

Lemma create_species_dict_sound_witness :
  ∃ csv_file,
    csv_file ∈ listing scenario ∧ "A" = display_name csv_file.
Proof.
  destruct (create_species_dict_sound (files scenario) (listing scenario)
              "SpeciesX"
              [SearchResults "A" (PyStr "10"); SearchResults "A" (PyStr "7");
               SearchResults "B" (PyInt 0)]
              (SearchResults "A" (PyStr "7")))
    as (csv_file & Hin & Hname & _).
  - vm_compute. reflexivity.
  - in_list.
  - by exists csv_file.
Defined.

(** X10. A result has exactly as many records as there are files in the
    list if and only if no file has more than one matching row; its
    records then carry the display names of the files, one each, in the
    order of the list. *)
Theorem one_record_per_file_iff
  (fs : gmap string (list (list string))) (csv_list : list string)
  (search_species : string) (results : list search_results) :
  create_species_dict fs csv_list search_species = Ok results →
  (length results = length csv_list ↔
   Forall (λ csv_file,
             length (matching_rows fs search_species csv_file) ≤ 1)
          csv_list) ∧
  (Forall (λ csv_file,
             length (matching_rows fs search_species csv_file) ≤ 1)
          csv_list →
   filename <$> results = display_name <$> csv_list).
Proof.
  intros ->%create_species_dict_inv. split.
  - rewrite length_bind_sum.
    assert ((λ x, length (file_records fs search_species x)) <$> csv_list
            = (λ n, 1 `max` n)
                <$> ((λ x, length (matching_rows fs search_species x))
                       <$> csv_list)) as ->.
    { rewrite <- list_fmap_compose. apply list_fmap_ext.
      intros _ csv_file _. apply file_records_length. }
    rewrite <- (length_fmap
                  (λ x, length (matching_rows fs search_species x)) csv_list).
    by rewrite sum_max_one_length, Forall_fmap.
  - intros Hone. rewrite fmap_bind_list.
    induction Hone as [|csv_file csv_list Hle _ IH]; [done|].
    rewrite bind_cons, fmap_cons, IH, file_records_filename.
    by replace (1 `max` length (matching_rows fs search_species csv_file))
      with 1 by lia.
Qed.

Lemma one_record_per_file_iff_witness :
  length [SearchResults "A" (PyInt 0); SearchResults "B" (PyInt 0)]
    = length (listing scenario).
Proof.
  apply (one_record_per_file_iff (files scenario) (listing scenario)
           "SpeciesX ").
  - vm_compute. reflexivity.
  - repeat constructor.
Defined.

(** ** The exported file *)

Module WriterFacts.
Import Writer StrFacts.

Lemma text_write_app pl s t :
  text_write pl (s +:+ t) = text_write pl s +:+ text_write pl t.
Proof.
  induction s as [|c s IH]; [done|]. rewrite app_cons. cbn [text_write].
  destruct (Ascii.eqb c Str.LF).
  - by rewrite IH, app_assoc.
  - by rewrite IH, app_cons.
Qed.

Lemma text_write_lineterminator pl :
  text_write pl lineterminator = String Str.CR (linesep pl).
Proof.
  unfold lineterminator. cbn [text_write].
  change (Ascii.eqb Str.CR Str.LF) with false.
  change (Ascii.eqb Str.LF Str.LF) with true.
  cbv iota. by rewrite app_nil_r.
Qed.

Lemma concat_cons (x : string) (l : list string) :
  String.concat "" (x :: l) = x +:+ String.concat "" l.
Proof. destruct l; [by rewrite app_nil_r|done]. Qed.

Lemma text_write_concat pl (l : list string) :
  text_write pl (String.concat "" l)
    = String.concat "" (text_write pl <$> l).
Proof.
  induction l as [|x l IH]; [done|].
  by rewrite fmap_cons, !concat_cons, text_write_app, IH.
Qed.

Lemma double_quotes_inj s1 s2 :
  double_quotes s1 = double_quotes s2 → s1 = s2.
Proof.
  revert s2. induction s1 as [|c1 s1 IH]; intros [|c2 s2] H;
    cbn [double_quotes] in H.
  - done.
  - by destruct (Ascii.eqb c2 Str.dquote).
  - by destruct (Ascii.eqb c1 Str.dquote).
  - destruct (Ascii.eqb_spec c1 Str.dquote) as [->|H1],
      (Ascii.eqb_spec c2 Str.dquote) as [->|H2]; simplify_eq.
    + f_equal. by apply IH.
    + f_equal. by apply IH.
Qed.

Lemma app_char_inj s1 s2 c :
  s1 +:+ String c "" = s2 +:+ String c "" → s1 = s2.
Proof.
  revert s2. induction s1 as [|a s1 IH]; intros [|b s2] H;
    rewrite ?app_cons, ?app_nil_l in H.
  - done.
  - apply (f_equal String.length) in H. simpl in H.
    rewrite length_app in H. simpl in H. lia.
  - apply (f_equal String.length) in H. simpl in H.
    rewrite length_app in H. simpl in H. lia.
  - injection H as -> H. f_equal. by apply IH.
Qed.

Lemma quoted_inj s1 s2 : quoted s1 = quoted s2 → s1 = s2.
Proof.
  unfold quoted. intros H. simplify_eq.
  by apply double_quotes_inj, (app_char_inj _ _ Str.dquote).
Qed.

Lemma unquoted_not_quoted s1 s2 : needs_quote s1 = false → s1 ≠ quoted s2.
Proof.
  unfold quoted. intros Hn ->. cbn [needs_quote] in Hn.
  apply orb_false_iff in Hn as [Hn _]. vm_compute in Hn. done.
Qed.

End WriterFacts.

(** X11. The exported file is the header line followed by one line per
    record, in the order of the records; each line is made of the
    display name and the text of [reads], and ends with a carriage return
    followed by [os.linesep]. *)
Theorem export_lines (pl : platform) (search_species : string)
  (results_list : list search_results) :
  results_to_csv pl search_species results_list
    = (search_species +:+ ".csv",
       export_line pl ["filename"; "reads"] +:+
       String.concat ""
         ((λ r, export_line pl [filename r; Writer.field_text (reads r)])
            <$> results_list)).
Proof.
  unfold results_to_csv. f_equal.
  rewrite WriterFacts.text_write_app. f_equal.
  - unfold Writer.writeheader, Writer.writerow. cbn [fmap list_fmap].
    change (Writer.field_text (PyStr "filename")) with "filename".
    cbv iota. unfold export_line.
    by rewrite WriterFacts.text_write_app,
         WriterFacts.text_write_lineterminator.
  - unfold Writer.writerows. rewrite WriterFacts.text_write_concat.
    rewrite <- !list_fmap_compose. f_equal.
    apply list_fmap_ext. intros _ [fname v] _. simpl.
    unfold Writer.writerow, Writer.dict_to_list. cbn [fmap list_fmap].
    cbn [filename reads Writer.field_text]. unfold export_line.
    destruct fname;
      by rewrite WriterFacts.text_write_app,
           WriterFacts.text_write_lineterminator.
Qed.

(** X12. Where [os.linesep] is the line feed, the text layer changes
    nothing: the file holds what the [csv] writer produced, each line
    ending with a carriage return and a line feed. *)
Theorem text_write_linefeed (pl : platform) (s : string) :
  linesep pl = String Str.LF "" →
  Writer.text_write pl s = s.
Proof.
  intros Hsep. induction s as [|c s IH]; [done|]. cbn [Writer.text_write].
  rewrite IH. destruct (Ascii.eqb_spec c Str.LF) as [->|_]; [|done].
  by rewrite Hsep.
Qed.

Lemma text_write_linefeed_witness :
  (results_to_csv posix "SpeciesX" [SearchResults "B" (PyInt 0)]).2
  = Writer.writeheader +:+ Writer.writerows [SearchResults "B" (PyInt 0)].
Proof. by apply (text_write_linefeed posix). Defined.

(** X13. Two different field texts are never written the same way: what
    the writer makes of a field determines the field. *)
Theorem field_distinct (s1 s2 : string) :
  s1 ≠ s2 → Writer.field s1 ≠ Writer.field s2.
Proof.
  intros Hne Heq. apply Hne. revert Heq. unfold Writer.field.
  destruct (Writer.needs_quote s1) eqn:H1, (Writer.needs_quote s2) eqn:H2.
  - apply WriterFacts.quoted_inj.
  - intros H. by destruct (WriterFacts.unquoted_not_quoted s2 s1).
  - intros H. by destruct (WriterFacts.unquoted_not_quoted s1 s2).
  - done.
Qed.

Lemma field_distinct_witness :
  Writer.field (String Str.dquote "A" +:+ String Str.dquote "") ≠ Writer.field "A".
Proof. apply field_distinct. discriminate. Defined.

(** ** The pipeline on a directory without source files *)

Lemma glob_none (pl : platform) (names : list string) :
  normcase pl "*final_results.csv" = "*final_results.csv" →
  (∀ n, n ∈ names →
        ¬ (Glob.ishidden n = false ∧
           ∃ k, normcase pl n = k +:+ "final_results.csv")) →
  Glob.glob pl names "*final_results.csv" = [].
Proof.
  intros Hpat Hnone. unfold Glob.glob, Glob.glob1, Glob.fnmatch_filter.
  rewrite Hpat, GlobFacts.translate_final_results.
  change (negb (Glob.ishidden "*final_results.csv")) with true.
  cbv beta iota zeta. rewrite list_filter_filter.
  induction names as [|n names IH]; [done|].
  rewrite filter_cons_False.
  - apply IH. intros n' Hn'. apply Hnone. by right.
  - rewrite Is_true_true, GlobFacts.matches_star_lits.
    rewrite Is_true_true, negb_true_iff.
    intros [Hm Hh]. apply (Hnone n); [by left|done].
Qed.

(** X14. When no entry of the working directory qualifies for discovery,
    nothing is discovered and no file is opened for reading: the
    aggregation returns the empty result, whatever the directory holds and
    whatever the query is, and what [results_to_csv] writes for it is the
    header line alone. *)
Theorem no_source_files (pl : platform) (working_dir : directory)
  (search_species : string) :
  normcase pl "*final_results.csv" = "*final_results.csv" →
  (∀ n, n ∈ listing working_dir →
        ¬ (Glob.ishidden n = false ∧
           ∃ k, normcase pl n = k +:+ "final_results.csv")) →
  Glob.glob pl (listing working_dir) "*final_results.csv" = [] ∧
  create_species_dict (files working_dir)
    (Glob.glob pl (listing working_dir) "*final_results.csv")
    search_species = Ok [] ∧
  (results_to_csv pl search_species []).2
    = export_line pl ["filename"; "reads"].
Proof.
  intros Hpat Hnone. rewrite glob_none by done.
  split; [done|]. split; [done|].
  unfold results_to_csv. cbn [snd].
  change (Writer.writerows []) with "". rewrite StrFacts.app_nil_r.
  unfold Writer.writeheader, Writer.writerow, export_line.
  cbn [fmap list_fmap]. change (Writer.field_text (PyStr "filename"))
    with "filename". cbv iota.
  by rewrite WriterFacts.text_write_app,
       WriterFacts.text_write_lineterminator.
Qed.

Lemma no_source_files_witness :
  Glob.glob posix ["notes.txt"; ".cache_final_results.csv"]
    "*final_results.csv" = [] ∧
  create_species_dict (<["notes.txt" := [["to do"]]]> ∅)
    (Glob.glob posix ["notes.txt"; ".cache_final_results.csv"]
       "*final_results.csv")
    "SpeciesX" = Ok [].
Proof.
  destruct (no_source_files posix
              (Directory ["notes.txt"; ".cache_final_results.csv"]
                 (<["notes.txt" := [["to do"]]]> ∅))
              "SpeciesX") as (Hglob & Hagg & _); [reflexivity| |by split].
  intros n Hn [Hhidden [k Hk]]. cbn [listing] in Hn. simpl in Hk.
  apply elem_of_cons in Hn as [->|Hn].
  - assert (Str.endswith "final_results.csv" "notes.txt" = true) as He
      by (apply StrFacts.endswith_spec; eauto).
    vm_compute in He. discriminate He.
  - apply list_elem_of_singleton in Hn as ->.
    vm_compute in Hhidden. discriminate Hhidden.
Defined.

(** ** The interactive program *)

(** The outcome of a run that gets its two lines. *)
Lemma main_console_outcome (pl : platform)
  (dirs : gmap string directory) (working_dir search_species : string)
  (d : directory) (rest : list string) (out : list event) :
  dirs !! working_dir = Some d →
  (main_console pl dirs
     (Console (working_dir :: search_species :: rest) out)).1
  = match main pl d search_species with
    | Ok exported => Done exported
    | Raise e => Fault (Uncaught e)
    end.
Proof.
  intros Hdir. unfold main_console, main.
  cbv [mbind io_bind input chdir print choose_species mret io_ret
       create_species_dict_print stdin stdout].
  rewrite Hdir.
  by destruct (create_species_dict (files d) _ search_species) as [r|e].
Qed.

(** X15. Given a first input line that names a directory that can be
    entered and a second input line, the interactive program runs the
    pipeline on that directory with the second line, taken as it is, as
    the query; it reads these two lines and no more, and it writes its
    prompts, the discovered names and, when the aggregation returns, the
    records. *)
Theorem main_console_runs_pipeline (pl : platform)
  (dirs : gmap string directory) (working_dir search_species : string)
  (d : directory) (rest : list string) (out : list event) :
  dirs !! working_dir = Some d →
  main_console pl dirs (Console (working_dir :: search_species :: rest) out)
  = (match main pl d search_species with
     | Ok exported => Done exported
     | Raise e => Fault (Uncaught e)
     end,
     Console rest
       (out ++
        [Prompt "Please choose the working directory: ";
         PrintNames (Glob.glob pl (listing d) "*final_results.csv");
         Print "";
         Print "Enter a bacteria species. Please be mindful of syntax.";
         Print "(Best practise to copy + paste the name directly from the csv)";
         Prompt "Enter species here: ";
         Print ""] ++
        match create_species_dict (files d)
                (Glob.glob pl (listing d) "*final_results.csv")
                search_species with
        | Ok results_list => [PrintResults results_list]
        | Raise _ => []
        end)).
Proof.
  intros Hdir. unfold main_console, main.
  cbv [mbind io_bind input chdir print choose_species mret io_ret
       create_species_dict_print stdin stdout].
  rewrite Hdir.
  destruct (create_species_dict (files d) _ search_species) as [r|e];
    cbn [mbind result_bind]; rewrite <- ?app_assoc; simpl; done.
Qed.

Lemma main_console_runs_pipeline_witness :
  (main_console posix (<["data" := scenario]> ∅)
     (Console ["data"; "SpeciesX"; "unread"] [])).1
  = Done (results_to_csv posix "SpeciesX"
            [SearchResults "A" (PyStr "10"); SearchResults "A" (PyStr "7");
             SearchResults "B" (PyInt 0)]) ∧
  stdin (main_console posix (<["data" := scenario]> ∅)
           (Console ["data"; "SpeciesX"; "unread"] [])).2
  = ["unread"].
Proof.
  rewrite (main_console_runs_pipeline posix (<["data" := scenario]> ∅)
             "data" "SpeciesX" scenario ["unread"] []) by reflexivity.
  split; vm_compute; reflexivity.
Defined.

(** X16. The interactive program stops with [EOFError] exactly when the
    input has no line, or a single line that names a directory that can be
    entered; it stops with [OSError] exactly when the first line names a
    directory that cannot be entered, and then only the first prompt was
    written and the lines after the first are left unread. *)
Theorem main_console_faults (pl : platform) (dirs : gmap string directory)
  (c : console) :
  ((main_console pl dirs c).1 = Fault EOFError ↔
   stdin c = [] ∨ ∃ working_dir,
     stdin c = [working_dir] ∧ is_Some (dirs !! working_dir)) ∧
  (∀ path,
     (main_console pl dirs c).1 = Fault (OSError path) ↔
     ∃ rest, stdin c = path :: rest ∧ dirs !! path = None) ∧
  (∀ path rest,
     stdin c = path :: rest → dirs !! path = None →
     (main_console pl dirs c).2
     = Console rest
         (stdout c ++ [Prompt "Please choose the working directory: "])).
Proof.
  destruct c as [[|working_dir [|search_species rest]] out].
  - repeat split; try done.
    + by left.
    + intros (rest & ? & _). done.
  - unfold main_console.
    cbv [mbind io_bind input chdir print choose_species mret io_ret
         create_species_dict_print stdin stdout].
    destruct (dirs !! working_dir) as [d|] eqn:Hdir; cbn [fst snd].
    + repeat split; try done.
      * intros _. right. exists working_dir. by rewrite Hdir.
      * intros (rest & ? & ?). congruence.
      * intros path rest ? ?. congruence.
    + repeat split; try done.
      * intros [?|(w & ? & Hw)]; [done|]. simplify_eq.
        rewrite Hdir in Hw. by destruct Hw.
      * intros ?. simplify_eq. by exists [].
      * intros (rest & ? & ?). by simplify_eq.
      * intros path rest ? ?. by simplify_eq.
  - destruct (dirs !! working_dir) as [d|] eqn:Hdir.
    + rewrite (main_console_outcome pl dirs working_dir
                 search_species d rest out Hdir). cbn [fst snd stdin].
      repeat split.
      * by destruct (main pl d search_species).
      * intros [?|(w & ? & _)]; done.
      * by destruct (main pl d search_species).
      * intros (r & ? & ?). congruence.
      * intros path r ? ?. congruence.
    + unfold main_console.
      cbv [mbind io_bind input chdir print choose_species mret io_ret
           create_species_dict_print stdin stdout].
      rewrite Hdir. cbn [fst snd]. repeat split; try done.
      * intros [?|(w & ? & _)]; done.
      * intros ?. simplify_eq. by eexists.
      * intros (r & ? & ?). by simplify_eq.
      * intros path r ? ?. by simplify_eq.
Qed.
